(** * nagios-go-rabbitmq: the overview check

    A shallow embedding of [overview.go] (package [main]) and of the parts of
    the Go standard library it calls ([strings.Split], [strconv.Atoi],
    [strconv.Itoa], [encoding/json.Unmarshal] into the [Overview] struct),
    followed by the properties of the limit parser, the threshold evaluator
    and the run controller.

    Conventions.
    - A Go [string] is a sequence of bytes: [String.string], whose characters
      are the 8-bit [ascii].
    - A Go [int] is the 64-bit signed integer of the usual platforms; it is a
      [Z], and the two places of the library where the machine arithmetic can
      wrap ([ParseUint], [ParseInt]) write the wrap-around out.
    - A Go slice [[]int] is a [list Z]; the nil slice is the empty list. *)

From Stdlib Require Import ZArith String Ascii List Bool Lia.
From Stdlib Require Import DecimalString DecimalPos.
Import ListNotations.

Set Warnings "-register-all".

Local Open Scope string_scope.
Local Open Scope Z_scope.

(** The numeric value of a byte. *)
Definition byte (c : ascii) : Z := Z.of_N (N_of_ascii c).

(** The byte of a numeric value. *)
Definition chr (z : Z) : ascii := ascii_of_N (Z.to_N z).

Definition isDigit (c : ascii) : bool := (48 <=? byte c) && (byte c <=? 57).

(** ** Package [strings] *)

Module strings.

(** [Count s sep]: the number of occurrences of the one-byte separator. *)
Fixpoint Count (s : string) (sep : ascii) : nat :=
  match s with
  | EmptyString => O
  | String c s' => if Ascii.eqb c sep then S (Count s' sep) else Count s' sep
  end.

(** The first piece of [s] and the pieces after it. *)
Fixpoint pieces (s : string) (sep : ascii) : string * list string :=
  match s with
  | EmptyString => (EmptyString, [])
  | String c s' =>
      let (p, ps) := pieces s' sep in
      if Ascii.eqb c sep then (EmptyString, p :: ps) else (String c p, ps)
  end.

(** [strings.Split(s, sep)] for a separator of one byte (the program only
    splits on [","]): all the substrings between separators, in order; one
    more piece than there are separators, so the empty string gives one
    empty piece. *)
Definition Split (s : string) (sep : ascii) : list string :=
  let (p, ps) := pieces s sep in p :: ps.

End strings.

(** ** Package [strconv] *)

Module strconv.

Inductive errKind := ErrSyntax | ErrRange.

(** [*strconv.NumError]. *)
Record NumError := mkNumError { Func : string; Num : string; Err : errKind }.

Definition syntaxError (fn str : string) : NumError := mkNumError fn str ErrSyntax.
Definition rangeError (fn str : string) : NumError := mkNumError fn str ErrRange.

Definition wrap64 (z : Z) : Z := z mod 2 ^ 64.

(** Conversion [int64(u)] of an unsigned 64-bit value, and the wrap-around of
    a signed 64-bit result. *)
Definition toInt64 (z : Z) : Z := (z + 2 ^ 63) mod 2 ^ 64 - 2 ^ 63.

Definition maxUint64 : Z := 2 ^ 64 - 1.

(** [cutoff] of [ParseUint] for base 10: the least [n] with
    [n * 10 > maxUint64]. *)
Definition cutoff10 : Z := maxUint64 / 10 + 1.

(** The digit loop of [ParseUint(s, 10, 64)].  A byte that is not a decimal
    digit is a syntax error (a letter is a digit of a base above 10, an
    underscore is only read in base 0); the overflow tests are those of the
    library, on wrapped unsigned arithmetic.  On a range error the library
    returns [maxVal] with the error. *)
Fixpoint parseUintLoop (s : string) (n : Z) : Z * option errKind :=
  match s with
  | EmptyString => (n, None)
  | String c s' =>
      if isDigit c then
        let d := byte c - 48 in
        if n >=? cutoff10 then (maxUint64, Some ErrRange)
        else
          let n10 := wrap64 (n * 10) in
          let n1 := wrap64 (n10 + d) in
          if (n1 <? n10) || (n1 >? maxUint64) then (maxUint64, Some ErrRange)
          else parseUintLoop s' n1
      else (0, Some ErrSyntax)
  end.

Definition ParseUint (s : string) : Z * option errKind :=
  match s with
  | EmptyString => (0, Some ErrSyntax)
  | _ => parseUintLoop s 0
  end.

Definition isPlus (c : ascii) : bool := Ascii.eqb c "+".
Definition isMinus (c : ascii) : bool := Ascii.eqb c "-".

(** [ParseInt(s, 10, 64)]: the value, or the error ([Func] is ["ParseInt"]). *)
Definition ParseInt (s : string) : Z + NumError :=
  match s with
  | EmptyString => inr (syntaxError "ParseInt" s)
  | String c0 rest =>
      let neg := isMinus c0 in
      let s1 := if isPlus c0 || isMinus c0 then rest else s in
      match ParseUint s1 with
      | (_, Some ErrSyntax) => inr (syntaxError "ParseInt" s)
      | (un, _) =>
          let cutoff := 2 ^ 63 in
          if negb neg && (un >=? cutoff) then inr (rangeError "ParseInt" s)
          else if neg && (un >? cutoff) then inr (rangeError "ParseInt" s)
          else
            let n := toInt64 un in
            inl (if neg then toInt64 (- n) else n)
      end
  end.

(** The digit loop of the fast path of [Atoi]: [ch -= '0'] on a byte, then
    [ch > 9].  It runs on fewer than 19 bytes, so [n*10 + int(ch)] stays
    below [10^18] and does not wrap. *)
Fixpoint atoiLoop (s : string) (n : Z) : option Z :=
  match s with
  | EmptyString => Some n
  | String c s' =>
      let ch := (byte c - 48) mod 256 in
      if ch >? 9 then None else atoiLoop s' (n * 10 + ch)
  end.

(** [strconv.Atoi(s)] with [intSize = 64]: a fast path for strings of 1 to 18
    bytes, [ParseInt(s, 10, 0)] otherwise, whose error is renamed to
    ["Atoi"]. *)
Definition Atoi (s : string) : Z + NumError :=
  let sLen := String.length s in
  match s with
  | String c0 rest =>
      if (sLen <? 19)%nat then
        let signed := isMinus c0 || isPlus c0 in
        let s1 := if signed then rest else s in
        if signed && (String.length s1 <? 1)%nat then inr (syntaxError "Atoi" s)
        else
          match atoiLoop s1 0 with
          | None => inr (syntaxError "Atoi" s)
          | Some n => inl (if isMinus c0 then - n else n)
          end
      else
        match ParseInt s with
        | inl i64 => inl i64
        | inr nerr => inr (mkNumError "Atoi" (Num nerr) (Err nerr))
        end
  | EmptyString =>
      match ParseInt s with
      | inl i64 => inl i64
      | inr nerr => inr (mkNumError "Atoi" (Num nerr) (Err nerr))
      end
  end.

(** [strconv.Itoa(i)]: the decimal rendering, ["-"] first when negative. *)
Definition Itoa (i : Z) : string := NilZero.string_of_int (Z.to_int i).

End strconv.

(** ** Package [encoding/json]: syntax

    [json.Unmarshal] first checks that the whole input is one JSON text
    ([checkValid]) and only then decodes it.  The syntax is modelled by a
    lexer and a parser over the bytes of the input, both state machines that
    read it once from left to right, as the library's scanner does. *)

Module json.

(** A JSON text.  A number keeps its literal, which the decoder hands to
    [strconv.ParseInt]; a string holds its unquoted bytes. *)
Inductive value :=
| Null
| Bool (b : bool)
| Number (lit : string)
| Str (s : string)
| Array (elems : list value)
| Object (members : list (string * value)).

Definition inRange (lo hi : Z) (c : ascii) : bool := (lo <=? byte c) && (byte c <=? hi).

(** [isSpace]: space, tab, carriage return, line feed. *)
Definition isSpace (c : ascii) : bool :=
  (byte c =? 32) || (byte c =? 9) || (byte c =? 13) || (byte c =? 10).

(** *** Numbers *)

Fixpoint skipDigits (s : string) : string :=
  match s with
  | String c s' => if isDigit c then skipDigits s' else s
  | EmptyString => EmptyString
  end.

(** One or more digits, then the end of the literal. *)
Definition digitsToEnd (s : string) : bool :=
  match s with
  | String c s' => isDigit c && String.eqb (skipDigits s') EmptyString
  | EmptyString => false
  end.

Definition validExp (s : string) : bool :=
  match s with
  | EmptyString => true
  | String c s' =>
      if (byte c =? 101) || (byte c =? 69) then      (* e E *)
        match s' with
        | String g s'' =>
            if (byte g =? 43) || (byte g =? 45) then digitsToEnd s''   (* + - *)
            else digitsToEnd s'
        | EmptyString => false
        end
      else false
  end.

Definition validFrac (s : string) : bool :=
  match s with
  | String c s' =>
      if byte c =? 46 then                            (* . *)
        match s' with
        | String d s'' => isDigit d && validExp (skipDigits s'')
        | EmptyString => false
        end
      else validExp s
  | EmptyString => true
  end.

Definition validInt (s : string) : bool :=
  match s with
  | String c s' =>
      if byte c =? 48 then validFrac s'               (* 0 *)
      else if inRange 49 57 c then validFrac (skipDigits s')
      else false
  | EmptyString => false
  end.

(** The number grammar: an optional minus sign; a zero, or a digit from 1 to
    9 and any digits; optionally a dot and one or more digits; optionally an
    [e] or [E], an optional sign and one or more digits. *)
Definition validNumber (s : string) : bool :=
  match s with
  | String c s' => if byte c =? 45 then validInt s' else validInt s
  | EmptyString => false
  end.

(** *** Strings *)

Definition hexVal (c : ascii) : option Z :=
  if inRange 48 57 c then Some (byte c - 48)
  else if inRange 97 102 c then Some (byte c - 97 + 10)
  else if inRange 65 70 c then Some (byte c - 65 + 10)
  else None.

(** [getu4]: the rune of four hexadecimal digits. *)
Definition getu4 (h1 h2 h3 h4 : ascii) : option Z :=
  match hexVal h1, hexVal h2, hexVal h3, hexVal h4 with
  | Some a, Some b, Some c, Some d => Some (a * 4096 + b * 256 + c * 16 + d)
  | _, _, _, _ => None
  end.

Definition isSurrogate (r : Z) : bool := (55296 <=? r) && (r <? 57344).

(** The bytes of U+FFFD, the replacement character. *)
Definition replacementChar : string :=
  String (chr 239) (String (chr 191) (String (chr 189) EmptyString)).

(** [utf8.EncodeRune]. *)
Definition encodeRune (r : Z) : string :=
  if r <=? 127 then String (chr r) EmptyString
  else if r <=? 2047 then
    String (chr (192 + r / 64)) (String (chr (128 + r mod 64)) EmptyString)
  else if isSurrogate r || (r >? 1114111) then replacementChar
  else if r <=? 65535 then
    String (chr (224 + r / 4096))
      (String (chr (128 + (r / 64) mod 64)) (String (chr (128 + r mod 64)) EmptyString))
  else
    String (chr (240 + r / 262144))
      (String (chr (128 + (r / 4096) mod 64))
         (String (chr (128 + (r / 64) mod 64)) (String (chr (128 + r mod 64)) EmptyString))).

(** [utf16.DecodeRune]: the rune of a surrogate pair, when it is one. *)
Definition decodePair (r1 r2 : Z) : option Z :=
  if (55296 <=? r1) && (r1 <? 56320) && (56320 <=? r2) && (r2 <? 57344)
  then Some ((r1 - 55296) * 1024 + (r2 - 56320) + 65536)
  else None.

(** The size of the well-formed UTF-8 sequence that starts with the byte [c]
    and goes on in [s]; [0] when there is none ([utf8.DecodeRune] then gives
    [RuneError] and a width of one byte). *)
Definition utf8Size (c : ascii) (s : string) : nat :=
  let cont := inRange 128 191 in
  let second :=
    if inRange 194 223 c then Some (128, 191, 2%nat)
    else if byte c =? 224 then Some (160, 191, 3%nat)
    else if inRange 225 236 c then Some (128, 191, 3%nat)
    else if byte c =? 237 then Some (128, 159, 3%nat)
    else if inRange 238 239 c then Some (128, 191, 3%nat)
    else if byte c =? 240 then Some (144, 191, 4%nat)
    else if inRange 241 243 c then Some (128, 191, 4%nat)
    else if byte c =? 244 then Some (128, 143, 4%nat)
    else None in
  match second, s with
  | Some (lo, hi, 2%nat), String b1 _ => if inRange lo hi b1 then 2%nat else 0%nat
  | Some (lo, hi, 3%nat), String b1 (String b2 _) =>
      if inRange lo hi b1 && cont b2 then 3%nat else 0%nat
  | Some (lo, hi, 4%nat), String b1 (String b2 (String b3 _)) =>
      if inRange lo hi b1 && cont b2 && cont b3 then 4%nat else 0%nat
  | _, _ => 0%nat
  end.

Definition simpleEscape (e : ascii) : option ascii :=
  if (byte e =? 34) || (byte e =? 92) || (byte e =? 47) then Some e   (* quote, backslash, slash *)
  else if byte e =? 98 then Some (chr 8)                               (* b *)
  else if byte e =? 102 then Some (chr 12)                             (* f *)
  else if byte e =? 110 then Some (chr 10)                             (* n *)
  else if byte e =? 114 then Some (chr 13)                             (* r *)
  else if byte e =? 116 then Some (chr 9)                              (* t *)
  else None.

Definition prepend (p : string) (r : option string) : option string :=
  match r with
  | Some s => Some (p ++ s)
  | None => None
  end.

(** The bytes of a string literal, from the bytes between its quotes
    ([unquoteBytes], on what the scanner accepts): a control character, a
    bare quote or a wrong escape is an error; [\uXXXX] is written in UTF-8,
    a surrogate pair as one rune and a lone surrogate as U+FFFD; a byte that
    starts no well-formed UTF-8 sequence becomes U+FFFD. *)
Fixpoint unquote (s : string) : option string :=
  match s with
  | EmptyString => Some EmptyString
  | String c s' =>
      if byte c =? 92 then
        match s' with
        | EmptyString => None
        | String e s'' =>
            if byte e =? 117 then                                      (* u *)
              match s'' with
              | String h1 (String h2 (String h3 (String h4 r))) =>
                  match getu4 h1 h2 h3 h4 with
                  | None => None
                  | Some rr =>
                      if isSurrogate rr then
                        match r with
                        | String b (String u (String g1 (String g2 (String g3 (String g4 r2))))) =>
                            match
                              (if (byte b =? 92) && (byte u =? 117)
                               then getu4 g1 g2 g3 g4 else None)
                            with
                            | Some rr1 =>
                                match decodePair rr rr1 with
                                | Some dec => prepend (encodeRune dec) (unquote r2)
                                | None => prepend replacementChar (unquote r)
                                end
                            | None => prepend replacementChar (unquote r)
                            end
                        | _ => prepend replacementChar (unquote r)
                        end
                      else prepend (encodeRune rr) (unquote r)
                  end
              | _ => None
              end
            else
              match simpleEscape e with
              | Some x => prepend (String x EmptyString) (unquote s'')
              | None => None
              end
        end
      else if (byte c =? 34) || (byte c <? 32) then None
      else if byte c <? 128 then prepend (String c EmptyString) (unquote s')
      else
        match utf8Size c s', s' with
        | 2%nat, String b1 r => prepend (String c (String b1 EmptyString)) (unquote r)
        | 3%nat, String b1 (String b2 r) =>
            prepend (String c (String b1 (String b2 EmptyString))) (unquote r)
        | 4%nat, String b1 (String b2 (String b3 r)) =>
            prepend (String c (String b1 (String b2 (String b3 EmptyString)))) (unquote r)
        | _, _ => prepend replacementChar (unquote s')
        end
  end.

(** *** Tokens *)

Inductive token :=
| LBrace | RBrace | LBracket | RBracket | Colon | Comma
| Lit (v : value).

Inductive lexState :=
| InSpace
| InString (raw : string) (esc : bool)
| InWord (w : string).

(** The bytes of numbers and of [null], [true], [false]. *)
Definition isWordChar (c : ascii) : bool :=
  isDigit c || inRange 97 122 c || inRange 65 90 c
  || (byte c =? 43) || (byte c =? 45) || (byte c =? 46).

Definition wordToken (w : string) : option token :=
  if String.eqb w "null" then Some (Lit Null)
  else if String.eqb w "true" then Some (Lit (Bool true))
  else if String.eqb w "false" then Some (Lit (Bool false))
  else if validNumber w then Some (Lit (Number w))
  else None.

Definition punct (c : ascii) : option token :=
  if byte c =? 123 then Some LBrace
  else if byte c =? 125 then Some RBrace
  else if byte c =? 91 then Some LBracket
  else if byte c =? 93 then Some RBracket
  else if byte c =? 58 then Some Colon
  else if byte c =? 44 then Some Comma
  else None.

Definition push (t : token) (r : option (list token)) : option (list token) :=
  match r with
  | Some ts => Some (t :: ts)
  | None => None
  end.

Definition snoc (s : string) (c : ascii) : string := s ++ String c EmptyString.

(** The tokens of the input, [None] on a lexical error.  A string literal
    runs to the first quote that no backslash precedes; a word is a longest
    run of word bytes and must be a number or one of the three names. *)
Fixpoint lex (s : string) (st : lexState) : option (list token) :=
  match s with
  | EmptyString =>
      match st with
      | InSpace => Some []
      | InString _ _ => None
      | InWord w => match wordToken w with Some t => Some [t] | None => None end
      end
  | String c s' =>
      let start := fun _ : unit =>
        if isSpace c then lex s' InSpace
        else if byte c =? 34 then lex s' (InString EmptyString false)
        else
          match punct c with
          | Some t => push t (lex s' InSpace)
          | None => if isWordChar c then lex s' (InWord (String c EmptyString)) else None
          end in
      match st with
      | InSpace => start tt
      | InString raw esc =>
          if esc then lex s' (InString (snoc raw c) false)
          else if byte c =? 92 then lex s' (InString (snoc raw c) true)
          else if byte c =? 34 then
            match unquote raw with
            | Some u => push (Lit (Str u)) (lex s' InSpace)
            | None => None
            end
          else lex s' (InString (snoc raw c) false)
      | InWord w =>
          if isWordChar c then lex s' (InWord (snoc w c))
          else match wordToken w with Some t => push t (start tt) | None => None end
      end
  end.

(** *** The grammar *)

(** An open container that waits for the value being read: an array with the
    elements read so far, or an object with the members read so far and the
    key of this one (both latest first). *)
Inductive frame :=
| InArray (elems : list value)
| InObject (members : list (string * value)) (key : string).

Inductive parseState :=
| WantValue (stk : list frame)
| ArrayOpened (stk : list frame)
| ObjectOpened (stk : list frame)
| WantKey (members : list (string * value)) (stk : list frame)
| WantColon (members : list (string * value)) (key : string) (stk : list frame)
| HaveValue (v : value) (stk : list frame).

(** [maxNestingDepth] of the scanner. *)
Definition maxNestingDepth : Z := 10000.

(** The start of a value below the open containers [stk]; opening one more
    container must not exceed the nesting limit. *)
Definition beginValue (stk : list frame) (t : token) : option parseState :=
  match t with
  | Lit v => Some (HaveValue v stk)
  | LBracket =>
      if Z.of_nat (List.length stk) <? maxNestingDepth then Some (ArrayOpened stk) else None
  | LBrace =>
      if Z.of_nat (List.length stk) <? maxNestingDepth then Some (ObjectOpened stk) else None
  | _ => None
  end.

Definition step (st : parseState) (t : token) : option parseState :=
  match st, t with
  | WantValue stk, _ => beginValue stk t
  | ArrayOpened stk, RBracket => Some (HaveValue (Array []) stk)
  | ArrayOpened stk, _ => beginValue (InArray [] :: stk) t
  | ObjectOpened stk, RBrace => Some (HaveValue (Object []) stk)
  | ObjectOpened stk, Lit (Str k) => Some (WantColon [] k stk)
  | WantKey ms stk, Lit (Str k) => Some (WantColon ms k stk)
  | WantColon ms k stk, Colon => Some (WantValue (InObject ms k :: stk))
  | HaveValue v (InArray es :: stk), Comma => Some (WantValue (InArray (v :: es) :: stk))
  | HaveValue v (InArray es :: stk), RBracket => Some (HaveValue (Array (rev (v :: es))) stk)
  | HaveValue v (InObject ms k :: stk), Comma => Some (WantKey ((k, v) :: ms) stk)
  | HaveValue v (InObject ms k :: stk), RBrace =>
      Some (HaveValue (Object (rev ((k, v) :: ms))) stk)
  | _, _ => None
  end.

Fixpoint run (ts : list token) (st : parseState) : option value :=
  match ts with
  | [] =>
      match st with
      | HaveValue v [] => Some v
      | _ => None
      end
  | t :: ts' =>
      match step st t with
      | Some st' => run ts' st'
      | None => None
      end
  end.

(** The JSON text of a whole input; [None] is a [*json.SyntaxError]. *)
Definition parse (data : string) : option value :=
  match lex data InSpace with
  | Some ts => run ts (WantValue [])
  | None => None
  end.

(** *** Field names *)

Definition upper (c : ascii) : Z := if inRange 97 122 c then byte c - 32 else byte c.

(** Whether the key of a JSON member names the struct field tagged [name],
    an ASCII name: byte for byte, or else up to case.  The case folding is
    the simple Unicode one, under which two runes outside ASCII fold to an
    ASCII letter: U+017F (bytes C5 BF) to [S] and U+212A (bytes E2 84 AA) to
    [K]. *)
Fixpoint foldsTo (key name : string) : bool :=
  match name with
  | EmptyString => String.eqb key EmptyString
  | String n name' =>
      match key with
      | EmptyString => false
      | String k key1 =>
          if byte k <? 128 then (upper k =? upper n) && foldsTo key1 name'
          else
            match key1 with
            | String k2 key2 =>
                if (byte k =? 197) && (byte k2 =? 191) then (upper n =? 83) && foldsTo key2 name'
                else
                  match key2 with
                  | String k3 key3 =>
                      if (byte k =? 226) && (byte k2 =? 132) && (byte k3 =? 170)
                      then (upper n =? 75) && foldsTo key3 name'
                      else false
                  | EmptyString => false
                  end
            | EmptyString => false
            end
      end
  end.

(** The errors of [Unmarshal]: [*json.SyntaxError], and
    [*json.UnmarshalTypeError] with the description of the JSON value that
    does not fit the Go type. *)
Inductive error :=
| SyntaxError
| UnmarshalTypeError (Value : string).

(** [d.saveError]: the first error is kept. *)
Definition saveError (saved new : option error) : option error :=
  match saved with
  | Some e => Some e
  | None => new
  end.

(** A literal, an array or an object stored into a Go [int]: [null] leaves
    it unchanged, a number goes through [strconv.ParseInt(lit, 10, 64)],
    anything else is a type error and leaves it unchanged. *)
Definition decodeInt (v : value) (cur : Z) : Z * option error :=
  match v with
  | Null => (cur, None)
  | Bool _ => (cur, Some (UnmarshalTypeError "bool"))
  | Str _ => (cur, Some (UnmarshalTypeError "string"))
  | Number lit =>
      match strconv.ParseInt lit with
      | inl n => (n, None)
      | inr _ => (cur, Some (UnmarshalTypeError ("number " ++ lit)))
      end
  | Array _ => (cur, Some (UnmarshalTypeError "array"))
  | Object _ => (cur, Some (UnmarshalTypeError "object"))
  end.

(** What a value that is not an object does to a struct: [null] is ignored,
    the rest is a type error. *)
Definition notAStruct (v : value) : option error :=
  match v with
  | Null => None
  | Bool _ => Some (UnmarshalTypeError "bool")
  | Str _ => Some (UnmarshalTypeError "string")
  | Number _ => Some (UnmarshalTypeError "number")
  | Array _ => Some (UnmarshalTypeError "array")
  | Object _ => None
  end.

End json.

(** ** Package [main]: the data *)

Record options := mkOptions {
  Host : string;
  Port : string;
  Username : string;
  Password : string;
  Warning : string;
  Critical : string;
  Secure : bool
}.

(** [QueueTotals]: the [queue_totals] substructure. *)
Record QueueTotals := mkQueueTotals {
  MessagesUnack : Z;      (* json:"messages_unacknowledged" *)
  MessagesReady : Z       (* json:"messages_ready" *)
}.

(** [Overview]; its one field is named [QueueTotals] in the source, after its
    type. *)
Record Overview := mkOverview {
  Totals : QueueTotals    (* json:"queue_totals" *)
}.

(** The zero value [Overview{}]. *)
Definition zeroOverview : Overview := mkOverview (mkQueueTotals 0 0).

(** The values of Go's [error] that the program meets. *)
Inductive error :=
| errorString (text : string)              (* errors.New *)
| NumError (e : strconv.NumError)          (* strconv.Atoi *)
| JSONError (e : json.error)               (* json.Unmarshal *)
| URLError (text : string)                 (* http.NewRequest *)
| TransportError (text : string)           (* client.Do *)
| ReadError (text : string).               (* ioutil.ReadAll *)

(** The request that [processHost] builds. *)
Record request := mkRequest {
  Method : string;
  URI : string;
  BasicAuthUser : string;
  BasicAuthPassword : string
}.

(** What a run does to the outside: [Stdout] is one write of [fmt.Println]
    (the text, its newline included), [Log] one [log.Println(err.Error())]
    (recorded by the error whose message is printed), [HTTP] one
    [client.Do]. *)
Inductive event :=
| Stdout (text : string)
| Log (err : error)
| HTTP (req : request).

(** A run-time panic. *)
Inductive panic :=
| NilDereference
| IndexOutOfRange (index : nat) (len : nat).

Inductive outcome (A : Type) :=
| Returned (a : A)
| Panicked (p : panic).
Arguments Returned {A} a.
Arguments Panicked {A} p.

(** ** Decoding into [Overview]

    [json.Unmarshal] works by reflection on the type of its target; these
    are its steps at the types of the program.  The members of an object are
    read in order, each into the field its key names (a key that names no
    field is skipped), so a member read later overwrites an earlier one. *)

Definition decodeQueueTotalsMember (st : QueueTotals * option json.error)
    (m : string * json.value) : QueueTotals * option json.error :=
  let (cur, saved) := st in
  let (key, v) := m in
  if json.foldsTo key "messages_unacknowledged" then
    let (n, e) := json.decodeInt v (MessagesUnack cur) in
    (mkQueueTotals n (MessagesReady cur), json.saveError saved e)
  else if json.foldsTo key "messages_ready" then
    let (n, e) := json.decodeInt v (MessagesReady cur) in
    (mkQueueTotals (MessagesUnack cur) n, json.saveError saved e)
  else (cur, saved).

Definition decodeQueueTotals (v : json.value) (cur : QueueTotals)
    : QueueTotals * option json.error :=
  match v with
  | json.Object members => fold_left decodeQueueTotalsMember members (cur, None)
  | _ => (cur, json.notAStruct v)
  end.

Definition decodeOverviewMember (st : Overview * option json.error)
    (m : string * json.value) : Overview * option json.error :=
  let (cur, saved) := st in
  let (key, v) := m in
  if json.foldsTo key "queue_totals" then
    let (q, e) := decodeQueueTotals v (Totals cur) in
    (mkOverview q, json.saveError saved e)
  else (cur, saved).

Definition decodeOverview (v : json.value) (cur : Overview)
    : Overview * option json.error :=
  match v with
  | json.Object members => fold_left decodeOverviewMember members (cur, None)
  | _ => (cur, json.notAStruct v)
  end.

(** [json.Unmarshal(data, &over)] with [over] of type [*Overview]: the
    target is a pointer to that pointer.  A syntax error leaves [over] as it
    is; the literal [null] sets the pointer [over] to nil; any other value
    is decoded into the struct [over] points to (a new zero one when it is
    nil).  The result is the pointer afterwards ([None] is nil) and the
    error. *)
Definition Unmarshal (data : string) (over : option Overview)
    : option Overview * option json.error :=
  match json.parse data with
  | None => (over, Some json.SyntaxError)
  | Some json.Null => (None, None)
  | Some v =>
      let cur := match over with Some o => o | None => zeroOverview end in
      let (o, e) := decodeOverview v cur in
      (Some o, e)
  end.

(** ** Package [main]: the functions *)

(** The loop of [limitMap] over the pieces, with the slice [warning] built
    so far. *)
Fixpoint limitMapLoop (values : list string) (warning : list Z)
    : list event * (list Z * option error) :=
  match values with
  | [] => ([], (warning, None))
  | value :: rest =>
      match strconv.Atoi value with
      | inr err => ([Log (NumError err)], ([], Some (NumError err)))
      | inl tmpWarning => limitMapLoop rest (warning ++ [tmpWarning])%list
      end
  end.

(** [limitMap]: what it logs, and the pair [([]int, error)] it returns. *)
Definition limitMap (str : string) : list event * (list Z * option error) :=
  let warningLimits := strings.Split str "," in
  if negb (List.length warningLimits =? 2)%nat then
    ([], ([], Some (errorString "A list of two integers is required for limits.")))
  else limitMapLoop warningLimits [].

(** Code that writes and may panic: the events so far, and how it ended. *)
Definition action (A : Type) : Type := list event * outcome A.

Definition ret {A : Type} (a : A) : action A := ([], Returned a).

Definition bind {A B : Type} (m : action A) (f : A -> action B) : action B :=
  match m with
  | (t, Returned a) => let (t', r) := f a in ((t ++ t')%list, r)
  | (t, Panicked p) => (t, Panicked p)
  end.

Notation "x <- m ;; k" := (bind m (fun x => k))
  (at level 61, m at next level, right associativity).
Notation "m ;;; k" := (bind m (fun _ => k))
  (at level 61, right associativity).

(** [*over]. *)
Definition deref (over : option Overview) : action Overview :=
  match over with
  | Some o => ret o
  | None => ([], Panicked NilDereference)
  end.

(** [s[i]] on a slice. *)
Definition index (s : list Z) (i : nat) : action Z :=
  match nth_error s i with
  | Some x => ret x
  | None => ([], Panicked (IndexOutOfRange i (List.length s)))
  end.

Definition newline : string := String (chr 10) EmptyString.

Definition Println (text : string) : action unit := ([Stdout (text ++ newline)], Returned tt).

(** [processOverview]. *)
Definition processOverview (over : option Overview) (warning critical : list Z)
    : action unit :=
  o <- deref over ;;
  let rdy := strconv.Itoa (MessagesReady (Totals o)) in
  let unack := strconv.Itoa (MessagesUnack (Totals o)) in
  c0 <- index critical 0 ;;
  (if MessagesReady (Totals o) >=? c0 then
     Println ("CRITICAL " ++ rdy ++ " messages ready")
   else
     w0 <- index warning 0 ;;
     if MessagesReady (Totals o) >=? w0 then
       Println ("WARNING " ++ rdy ++ " messages ready")
     else
       Println ("OK " ++ rdy ++ " messages ready")) ;;;
  c1 <- index critical 1 ;;
  if MessagesUnack (Totals o) >=? c1 then
    Println ("CRITICAL " ++ unack ++ " messages unacknowledged")
  else
    w1 <- index warning 1 ;;
    if MessagesUnack (Totals o) >=? w1 then
      Println ("WARNING " ++ unack ++ " messages unacknowledged")
    else
      Println ("OK " ++ unack ++ " messages unacknowledged").

(** What the network answers to one request: [client.Do] fails, or
    [ioutil.ReadAll] of the body fails, or the whole body is read. *)
Inductive exchange :=
| DoFailed (text : string)
| ReadFailed (text : string)
| Body (body : string).

Section Run.

(** The outside of the program: the state of the network, how it answers a
    request, and which URIs [http.NewRequest] refuses. *)
Variable World : Type.
Variable roundTrip : request -> World -> exchange * World.
Variable badURI : string -> option string.

(** [processHost]: the events, the world afterwards, and the pair it
    returns, the pointer [*Overview] ([None] is nil) and the error. *)
Definition processHost (opt : options) (host : string) (w : World)
    : list event * World * (option Overview * option error) :=
  let prefix := if Secure opt then "https" else "http" in
  let uri := prefix ++ "://" ++ host ++ ":" ++ Port opt ++ "/api/overview" in
  match badURI uri with
  | Some text => ([], w, (None, Some (URLError text)))
  | None =>
      let req := mkRequest "GET" uri (Username opt) (Password opt) in
      match roundTrip req w with
      | (DoFailed text, w') => ([HTTP req], w', (None, Some (TransportError text)))
      | (ReadFailed text, w') => ([HTTP req], w', (None, Some (ReadError text)))
      | (Body body, w') =>
          match Unmarshal body (Some zeroOverview) with
          | (_, Some err) => ([HTTP req], w', (None, Some (JSONError err)))
          | (over, None) => ([HTTP req], w', (over, None))
          end
      end
  end.

(** The loop of [main] over the hosts; an error of [processHost] returns
    from [main]. *)
Fixpoint hostLoop (opt : options) (warningLimits criticalLimits : list Z)
    (hosts : list string) (w : World) : list event * World * outcome unit :=
  match hosts with
  | [] => ([], w, Returned tt)
  | value :: rest =>
      match processHost opt value w with
      | (t, w1, (_, Some err)) => ((t ++ [Log err])%list, w1, Returned tt)
      | (t, w1, (over, None)) =>
          match processOverview over warningLimits criticalLimits with
          | (t', Panicked p) => ((t ++ t')%list, w1, Panicked p)
          | (t', Returned _) =>
              match hostLoop opt warningLimits criticalLimits rest w1 with
              | (t'', w2, r) => ((t ++ t' ++ t'')%list, w2, r)
              end
          end
      end
  end.

(** [main], from the result of [flags.Parse]: the options, or its error
    (what that library prints itself is not part of the model). *)
Definition main (parsed : options + string) (w : World)
    : list event * World * outcome unit :=
  match parsed with
  | inr _ => ([], w, Returned tt)
  | inl opt =>
      match limitMap (Warning opt) with
      | (t1, (_, Some err)) => ((t1 ++ [Log err])%list, w, Returned tt)
      | (t1, (warningLimits, None)) =>
          match limitMap (Critical opt) with
          | (t2, (_, Some err)) => ((t1 ++ t2 ++ [Log err])%list, w, Returned tt)
          | (t2, (criticalLimits, None)) =>
              let hosts := strings.Split (Host opt) "," in
              match hostLoop opt warningLimits criticalLimits hosts w with
              | (t3, w', r) => ((t1 ++ t2 ++ t3)%list, w', r)
              end
          end
      end
  end.

End Run.

(** ** The vocabulary of the properties *)

(** A string of decimal digits. *)
Fixpoint allDigits (s : string) : bool :=
  match s with
  | EmptyString => true
  | String c s' => isDigit c && allDigits s'
  end.

(** The number a string of digits reads as, after the number [n] of the
    digits before it. *)
Fixpoint digitsValue (s : string) (n : Z) : Z :=
  match s with
  | EmptyString => n
  | String c s' => digitsValue s' (n * 10 + (byte c - 48))
  end.

(** The error of the limit parser for a wrong number of pieces. *)
Definition malformed : error :=
  errorString "A list of two integers is required for limits.".

Inductive level := OK | WARNING | CRITICAL.

Definition levelName (l : level) : string :=
  match l with
  | OK => "OK"
  | WARNING => "WARNING"
  | CRITICAL => "CRITICAL"
  end.

(** The write of one status line: the level, the counter in decimal and the
    label, one space between them, and the newline. *)
Definition report (l : level) (v : Z) (label : string) : event :=
  Stdout ((levelName l ++ " " ++ strconv.Itoa v ++ " " ++ label) ++ newline).

Definition ready (o : Overview) : Z := MessagesReady (Totals o).
Definition unacknowledged (o : Overview) : Z := MessagesUnack (Totals o).

(** One write of the evaluator is one line: its only newline is the last
    byte. *)
Definition oneLine (e : event) : Prop :=
  exists text, e = Stdout (text ++ newline) /\ strings.Count text (chr 10) = 0%nat.

(** Whether an object has a member whose key names the field [field]. *)
Definition givesField (field : string) (v : json.value) : bool :=
  match v with
  | json.Object members => existsb (fun m => json.foldsTo (fst m) field) members
  | _ => false
  end.

(** Whether a body has a [queue_totals] member that is an object with a
    member for the counter [counter]. *)
Definition givesCounter (counter : string) (v : json.value) : bool :=
  match v with
  | json.Object members =>
      existsb (fun m => json.foldsTo (fst m) "queue_totals" && givesField counter (snd m))
        members
  | _ => false
  end.

(** The texts written to standard output, and the requests issued, in
    order. *)
Fixpoint output (t : list event) : list string :=
  match t with
  | [] => []
  | Stdout text :: t' => text :: output t'
  | _ :: t' => output t'
  end.

Fixpoint requests (t : list event) : list request :=
  match t with
  | [] => []
  | HTTP req :: t' => req :: requests t'
  | _ :: t' => requests t'
  end.

(** A network that answers from a script, one answer a request, and then
    refuses; every URI is well formed. *)
Definition scriptedRoundTrip (req : request) (w : list exchange) : exchange * list exchange :=
  match w with
  | [] => (DoFailed "connection refused", [])
  | x :: w' => (x, w')
  end.

Definition anyURI (uri : string) : option string := None.

Definition defaults : options :=
  mkOptions "localhost" "15672" "guest" "guest" "10000,10000" "50000,50000" false.

(** Options and requests of the example runs, and the evaluator at the
    default limits. *)
Definition threeHosts : options :=
  mkOptions "a,b,c" "15672" "guest" "guest" "10000,10000" "50000,50000" false.

Definition requestTo (host : string) : request :=
  mkRequest "GET" ("http://" ++ host ++ ":15672/api/overview") "guest" "guest".

Definition oneLimit : options :=
  mkOptions "a,b" "15672" "guest" "guest" "10000" "50000,50000" false.

Definition thresholds (o : Overview) : action unit :=
  processOverview (Some o) [10000; 10000] [50000; 50000].

(** A JSON text written with apostrophes for its double quotes. *)
Fixpoint quoted (s : string) : string :=
  match s with
  | EmptyString => EmptyString
  | String c s' => String (if byte c =? 39 then chr 34 else c) (quoted s')
  end.

Section Served.

Variable World : Type.
Variable roundTrip : request -> World -> exchange * World.
Variable badURI : string -> option string.

(** The hosts [hosts] are all fetched and evaluated, from the world [w]:
    the events of that and the world afterwards. *)
Inductive served (opt : options) (warningLimits criticalLimits : list Z)
  : list string -> World -> list event -> World -> Prop :=
| served_nil w : served opt warningLimits criticalLimits [] w [] w
| served_cons host rest w t w1 over t' t'' w2 :
    processHost World roundTrip badURI opt host w = (t, w1, (over, None)) ->
    processOverview over warningLimits criticalLimits = (t', Returned tt) ->
    served opt warningLimits criticalLimits rest w1 t'' w2 ->
    served opt warningLimits criticalLimits (host :: rest) w (t ++ t' ++ t'')%list w2.

End Served.

(** ** Further vocabulary *)

(** The range of a Go [int]. *)
Definition int64 (z : Z) : Prop := - 2 ^ 63 <= z < 2 ^ 63.

Definition int64Totals (q : QueueTotals) : Prop :=
  int64 (MessagesUnack q) /\ int64 (MessagesReady q).

(** The levels in order of severity. *)
Definition severity (l : level) : Z :=
  match l with
  | OK => 0
  | WARNING => 1
  | CRITICAL => 2
  end.

(** The URI of the overview of a host, and the request for it. *)
Definition overviewURI (opt : options) (host : string) : string :=
  (if Secure opt then "https" else "http") ++ "://" ++ host ++ ":" ++ Port opt
  ++ "/api/overview".

Definition overviewRequest (opt : options) (host : string) : request :=
  mkRequest "GET" (overviewURI opt host) (Username opt) (Password opt).

(** The body of an overview with the two counters, without spaces. *)
Definition overviewBody (messagesReady messagesUnack : Z) : string :=
  quoted "{'queue_totals':{'messages_ready':" ++ strconv.Itoa messagesReady
  ++ quoted ",'messages_unacknowledged':" ++ strconv.Itoa messagesUnack ++ "}}".

Fixpoint allWordChars (s : string) : bool :=
  match s with
  | EmptyString => true
  | String c s' => json.isWordChar c && allWordChars s'
  end.

(** [strings.Join(elems, ",")], for a separator of one byte. *)
Fixpoint Join (elems : list string) (sep : ascii) : string :=
  match elems with
  | [] => EmptyString
  | [e] => e
  | e :: rest => e ++ String sep (Join rest sep)
  end.

(** Whether an error is the [*NumError] of [Atoi]. *)
Definition isNumError (e : error) : bool :=
  match e with
  | NumError _ => true
  | _ => false
  end.

(** A piece without a comma. *)
Definition commaFree (s : string) : Prop := strings.Count s "," = 0%nat.


Definition notANumber : options :=
  mkOptions "a,b" "15672" "guest" "guest" "10000,10000" "50000,many" false.

(** A JSON value that fits a Go [int]: [null], or a number whose literal
    [strconv.ParseInt] converts. *)
Definition fitsInt (v : json.value) : bool :=
  match v with
  | json.Null => true
  | json.Number lit =>
      match strconv.ParseInt lit with
      | inl _ => true
      | inr _ => false
      end
  | _ => false
  end.

(** Whether the key of a member names a counter of [QueueTotals]. *)
Definition namesCounter (key : string) : bool :=
  json.foldsTo key "messages_unacknowledged" || json.foldsTo key "messages_ready".

(** A JSON value that fits [QueueTotals]: [null], or an object whose
    members for the counters fit a Go [int]. *)
Definition fitsTotals (v : json.value) : bool :=
  match v with
  | json.Null => true
  | json.Object members =>
      forallb (fun m => negb (namesCounter (fst m)) || fitsInt (snd m)) members
  | _ => false
  end.

(** * Properties *)

(** ** The library functions on examples *)

Example Atoi_ex1 : strconv.Atoi "10000" = inl 10000.
Proof. reflexivity. Qed.

Example Atoi_ex2 : strconv.Atoi "-9223372036854775808" = inl (- 2 ^ 63).
Proof. reflexivity. Qed.

Example Atoi_ex3 :
  strconv.Atoi "9223372036854775808" = inr (strconv.rangeError "Atoi" "9223372036854775808").
Proof. reflexivity. Qed.

Example Atoi_ex4 : strconv.Atoi "+" = inr (strconv.syntaxError "Atoi" "+").
Proof. reflexivity. Qed.

Example Atoi_ex5 : strconv.Atoi "" = inr (strconv.syntaxError "Atoi" "").
Proof. reflexivity. Qed.

Example Atoi_ex6 : strconv.Atoi " 1" = inr (strconv.syntaxError "Atoi" " 1").
Proof. reflexivity. Qed.

Example Itoa_ex1 : strconv.Itoa 5000 = "5000".
Proof. reflexivity. Qed.

Example Itoa_ex2 : strconv.Itoa (-42) = "-42".
Proof. reflexivity. Qed.

Example Itoa_ex3 : strconv.Itoa 0 = "0".
Proof. reflexivity. Qed.

Example Split_ex1 : strings.Split "a,b,c" "," = ["a"; "b"; "c"].
Proof. reflexivity. Qed.

Example Split_ex2 : strings.Split "" "," = [""].
Proof. reflexivity. Qed.

Example Split_ex3 : strings.Split ",1," "," = [""; "1"; ""].
Proof. reflexivity. Qed.

(** ** Bytes *)

Ltac byte_cases c :=
  destruct c as [[] [] [] [] [] [] [] []]; vm_compute; try reflexivity; try discriminate.

Lemma isDigit_not_comma (c : ascii) : isDigit c = true -> Ascii.eqb c "," = false.
Proof. byte_cases c. Qed.

Lemma atoi_byte_digit (c : ascii) :
  ((byte c - 48) mod 256 >? 9) = false -> isDigit c = true.
Proof. byte_cases c. Qed.

Lemma sign_not_comma (c : ascii) :
  (strconv.isPlus c || strconv.isMinus c) = true -> Ascii.eqb c "," = false.
Proof. byte_cases c. Qed.

(** ** [strings.Split] *)


Lemma allDigits_no_comma (s : string) :
  allDigits s = true -> strings.Count s "," = 0%nat.
Proof.
  induction s as [|c s IH]; simpl; [reflexivity|].
  intros H. apply andb_prop in H as [Hc Hs].
  rewrite (isDigit_not_comma c Hc). auto.
Qed.

Lemma Split_length (s : string) (sep : ascii) :
  List.length (strings.Split s sep) = S (strings.Count s sep).
Proof.
  unfold strings.Split.
  induction s as [|c s IH]; simpl; [reflexivity|].
  destruct (strings.pieces s sep) as [p ps].
  destruct (Ascii.eqb c sep); simpl in *; lia.
Qed.

Lemma pieces_no_sep (s : string) (sep : ascii) :
  strings.Count s sep = 0%nat -> strings.pieces s sep = (s, []).
Proof.
  induction s as [|c s IH]; simpl; [reflexivity|].
  destruct (Ascii.eqb c sep); [discriminate|].
  intros H. rewrite (IH H). reflexivity.
Qed.

Lemma pieces_app (a b : string) (sep : ascii) :
  strings.Count a sep = 0%nat ->
  strings.pieces (a ++ String sep b) sep = (a, strings.Split b sep).
Proof.
  unfold strings.Split.
  induction a as [|c a IH]; simpl.
  - intros _. rewrite Ascii.eqb_refl. destruct (strings.pieces b sep); reflexivity.
  - destruct (Ascii.eqb c sep); [discriminate|].
    intros H. rewrite (IH H). destruct (strings.pieces b sep); reflexivity.
Qed.

Lemma Split_two (a b : string) (sep : ascii) :
  strings.Count a sep = 0%nat -> strings.Count b sep = 0%nat ->
  strings.Split (a ++ String sep b) sep = [a; b].
Proof.
  intros Ha Hb. unfold strings.Split at 1. rewrite (pieces_app a b sep Ha).
  unfold strings.Split. rewrite (pieces_no_sep b sep Hb). reflexivity.
Qed.

(** A string with one separator is its two pieces around it. *)
Lemma Split_one_sep (s : string) (sep : ascii) :
  strings.Count s sep = 1%nat ->
  exists p q, s = p ++ String sep q /\ strings.Split s sep = [p; q]
              /\ strings.Count p sep = 0%nat /\ strings.Count q sep = 0%nat.
Proof.
  induction s as [|c s IH]; simpl; [discriminate|].
  destruct (Ascii.eqb c sep) eqn:E.
  - intros H. injection H as H. apply Ascii.eqb_eq in E. subst c.
    exists EmptyString, s. repeat split; auto.
    apply (Split_two EmptyString s sep); auto.
  - intros H. destruct (IH H) as (p & q & Hs & Hsp & Hp & Hq).
    exists (String c p), q. subst s. repeat split; auto.
    + apply (Split_two (String c p) q sep); simpl; [rewrite E|]; auto.
    + simpl. rewrite E. exact Hp.
Qed.

(** ** [strconv.Atoi] *)

Lemma atoiLoop_digits (s : string) :
  forall n m, strconv.atoiLoop s n = Some m -> allDigits s = true.
Proof.
  induction s as [|c s IH]; simpl; [reflexivity|].
  intros n m. destruct ((byte c - 48) mod 256 >? 9) eqn:E; [discriminate|].
  intros H. rewrite (atoi_byte_digit c E). simpl. eapply IH; eauto.
Qed.

Lemma parseUintLoop_digits (s : string) :
  forall n u, strconv.parseUintLoop s n = (u, None) -> allDigits s = true.
Proof.
  induction s as [|c s IH]; simpl; [reflexivity|].
  intros n u. destruct (isDigit c); [|discriminate].
  destruct (n >=? strconv.cutoff10); [discriminate|].
  match goal with |- context [if ?b then _ else _] => destruct b end; [discriminate|].
  intros H. simpl. eapply IH; eauto.
Qed.

Lemma ParseUint_digits (s : string) (u : Z) :
  strconv.ParseUint s = (u, None) -> allDigits s = true.
Proof.
  destruct s as [|c s]; [discriminate|].
  unfold strconv.ParseUint. apply parseUintLoop_digits.
Qed.

(** A range error of [ParseUint] comes with [maxUint64]. *)
Lemma parseUintLoop_range (s : string) :
  forall n u, strconv.parseUintLoop s n = (u, Some strconv.ErrRange) -> u = strconv.maxUint64.
Proof.
  induction s as [|c s IH]; simpl; [discriminate|].
  intros n u. destruct (isDigit c); [|discriminate].
  destruct (n >=? strconv.cutoff10); [intros H; injection H; auto|].
  match goal with |- context [if ?b then _ else _] => destruct b end;
    [intros H; injection H; auto|].
  apply IH.
Qed.

Lemma signed_digits_no_comma (c : ascii) (rest : string) :
  allDigits (if strconv.isPlus c || strconv.isMinus c then rest else String c rest) = true ->
  strings.Count (String c rest) "," = 0%nat.
Proof.
  destruct (strconv.isPlus c || strconv.isMinus c) eqn:E; intros H.
  - simpl. rewrite (sign_not_comma c E). apply allDigits_no_comma, H.
  - apply allDigits_no_comma, H.
Qed.

Lemma ParseInt_no_comma (s : string) (a : Z) :
  strconv.ParseInt s = inl a -> strings.Count s "," = 0%nat.
Proof.
  destruct s as [|c rest]; [discriminate|].
  unfold strconv.ParseInt.
  destruct (strconv.ParseUint _) as [un [[|]|]] eqn:E; [discriminate| |].
  - assert (un = strconv.maxUint64) as ->.
    { destruct (if strconv.isPlus c || strconv.isMinus c then rest else String c rest);
        [discriminate|]. eapply parseUintLoop_range, E. }
    destruct (strconv.isMinus c); vm_compute; discriminate.
  - intros _. apply signed_digits_no_comma. eapply ParseUint_digits, E.
Qed.

(** A string that [Atoi] accepts holds no comma. *)
Lemma Atoi_no_comma (s : string) (a : Z) :
  strconv.Atoi s = inl a -> strings.Count s "," = 0%nat.
Proof.
  destruct s as [|c rest]; [discriminate|].
  unfold strconv.Atoi.
  destruct (String.length (String c rest) <? 19)%nat.
  - destruct (_ && _); [discriminate|].
    destruct (strconv.atoiLoop _ 0) as [n|] eqn:E; [|discriminate].
    intros _. apply signed_digits_no_comma.
    rewrite orb_comm. eapply atoiLoop_digits, E.
  - destruct (strconv.ParseInt (String c rest)) eqn:E; [|discriminate].
    intros _. eapply ParseInt_no_comma, E.
Qed.

(** ** The limit parser *)


Lemma limitMap_count (s : string) :
  strings.Count s "," <> 1%nat -> limitMap s = ([], ([], Some malformed)).
Proof.
  intros H. unfold limitMap. rewrite Split_length.
  destruct (S (strings.Count s ",") =? 2)%nat eqn:E; [|reflexivity].
  apply Nat.eqb_eq in E. lia.
Qed.

Lemma limitMap_two (s p q : string) :
  strings.Split s "," = [p; q] -> limitMap s = limitMapLoop [p; q] [].
Proof. intros H. unfold limitMap. rewrite H. reflexivity. Qed.

(** The loop either converts every piece, or stops at the first piece that
    [Atoi] refuses, logs its error and returns it. *)
Lemma limitMapLoop_cases (values : list string) :
  forall warning,
    (exists l, limitMapLoop values warning = ([], ((warning ++ l)%list, None))
               /\ List.length l = List.length values)
    \/ (exists e, limitMapLoop values warning = ([Log (NumError e)], ([], Some (NumError e)))).
Proof.
  induction values as [|v vs IH]; intros warning; simpl.
  - left. exists []. rewrite app_nil_r. auto.
  - destruct (strconv.Atoi v) as [n|e]; [|right; eauto].
    destruct (IH (warning ++ [n])%list) as [(l & H & Hl)|(e & H)]; [left|right; eauto].
    exists (n :: l). rewrite H, <- app_assoc. simpl. auto.
Qed.

(** C3: for strings [sa] and [sb] that [Atoi] converts to [a] and [b], the
    limit parser applied to [sa,sb] succeeds, logs nothing and returns the
    two-element slice [a; b], in input order. *)
Theorem limitMap_pair (sa sb : string) (a b : Z) :
  strconv.Atoi sa = inl a -> strconv.Atoi sb = inl b ->
  limitMap (sa ++ "," ++ sb) = ([], ([a; b], None)).
Proof.
  intros Ha Hb.
  rewrite (limitMap_two _ sa sb).
  - simpl. rewrite Ha, Hb. reflexivity.
  - apply Split_two; eapply Atoi_no_comma; eauto.
Qed.

Lemma limitMap_pair_witness :
  limitMap ("10000" ++ "," ++ "-7") = ([], ([10000; -7], None)).
Proof. apply (limitMap_pair "10000" "-7" 10000 (-7)); reflexivity. Defined.

(** C4: a string that does not hold exactly one comma is refused with the
    error of [errors.New] (the malformed-limits error) and the nil slice; a
    string with exactly one comma is its two pieces [p,q], and when [Atoi]
    refuses [p], or accepts [p] and refuses [q], the parser returns the nil
    slice and that [*NumError] (the non-numeric-limit error). *)
Theorem limitMap_rejects (s : string) :
  (strings.Count s "," <> 1%nat -> snd (limitMap s) = ([], Some malformed))
  /\ (strings.Count s "," = 1%nat ->
      exists p q, s = p ++ "," ++ q /\ strings.Split s "," = [p; q]
        /\ (forall e, strconv.Atoi p = inr e ->
              snd (limitMap s) = ([], Some (NumError e)))
        /\ (forall a e, strconv.Atoi p = inl a -> strconv.Atoi q = inr e ->
              snd (limitMap s) = ([], Some (NumError e)))).
Proof.
  split.
  - intros H. rewrite (limitMap_count s H). reflexivity.
  - intros H. destruct (Split_one_sep s "," H) as (p & q & Hs & Hsp & _ & _).
    exists p, q. repeat split; auto.
    + intros e He. rewrite (limitMap_two s p q Hsp). simpl. rewrite He. reflexivity.
    + intros a e Ha He. rewrite (limitMap_two s p q Hsp). simpl. rewrite Ha, He. reflexivity.
Qed.

Lemma limitMap_rejects_witness :
  snd (limitMap "10000") = ([], Some malformed)
  /\ snd (limitMap "1,2,3") = ([], Some malformed)
  /\ snd (limitMap "12a,5") = ([], Some (NumError (strconv.syntaxError "Atoi" "12a")))
  /\ snd (limitMap "5,") = ([], Some (NumError (strconv.syntaxError "Atoi" ""))).
Proof.
  split; [|split; [|split]].
  - apply (proj1 (limitMap_rejects "10000")). vm_compute. discriminate.
  - apply (proj1 (limitMap_rejects "1,2,3")). vm_compute. discriminate.
  - destruct (proj2 (limitMap_rejects "12a,5") eq_refl) as (p & q & _ & Hsp & H1 & _).
    vm_compute in Hsp. injection Hsp as <- <-. apply H1. reflexivity.
  - destruct (proj2 (limitMap_rejects "5,") eq_refl) as (p & q & _ & Hsp & _ & H2).
    vm_compute in Hsp. injection Hsp as <- <-. apply (H2 5). reflexivity. reflexivity.
Defined.

(** C9, as stated, fails: on a piece that is not an integer the limit parser
    writes to the log before it returns. *)
Lemma limitMap_logs_counterexample : ~ (forall s : string, fst (limitMap s) = []).
Proof. intros H. specialize (H "x,1"). vm_compute in H. discriminate H. Qed.

(** What the limit parser writes: nothing, or the one log line of the piece
    it could not convert. *)
Lemma limitMap_writes (s : string) :
  match limitMap s with
  | (t, (_, None)) => t = []
  | (t, (_, Some (NumError e))) => t = [Log (NumError e)]
  | (t, (_, Some _)) => t = []
  end.
Proof.
  unfold limitMap.
  destruct (negb _); [reflexivity|].
  destruct (limitMapLoop_cases (strings.Split s ",") []) as [(l & H & _)|(e & H)];
    rewrite H; auto.
Qed.

(** C9, amended: the limit parser writes nothing when it succeeds and when
    it refuses a string for its number of pieces; when it refuses a piece
    that is not an integer it writes that error to the log, once, and
    nothing else.  It never writes to standard output and never issues a
    request. *)
Theorem limitMap_effects (s : string) :
  output (fst (limitMap s)) = [] /\ requests (fst (limitMap s)) = []
  /\ match limitMap s with
     | (t, (_, None)) => t = []
     | (t, (_, Some (NumError e))) => t = [Log (NumError e)]
     | (t, (_, Some _)) => t = []
     end.
Proof.
  pose proof (limitMap_writes s) as H.
  destruct (limitMap s) as [t [l [[]|]]]; simpl; subst t; auto.
Qed.

(** A successful limit parser returns exactly two elements. *)
Lemma limitMap_length (s : string) (t : list event) (l : list Z) :
  limitMap s = (t, (l, None)) -> List.length l = 2%nat.
Proof.
  unfold limitMap.
  destruct (List.length (strings.Split s ",") =? 2)%nat eqn:E; simpl; [|discriminate].
  apply Nat.eqb_eq in E.
  destruct (limitMapLoop_cases (strings.Split s ",") []) as [(l' & H & Hl)|(e & H)];
    rewrite H; [|discriminate].
  intros H'. injection H' as _ <-. simpl. lia.
Qed.

(** ** [strconv.Itoa] and [strconv.Atoi] *)

Lemma isDigit_value (c : ascii) :
  isDigit c = true -> 0 <= byte c - 48 <= 9 /\ (byte c - 48) mod 256 = byte c - 48.
Proof.
  unfold isDigit. intros H. apply andb_prop in H as [H1 H2].
  apply Z.leb_le in H1, H2. split; [lia|]. apply Z.mod_small. lia.
Qed.

Lemma atoiLoop_value (s : string) :
  allDigits s = true -> forall n, strconv.atoiLoop s n = Some (digitsValue s n).
Proof.
  induction s as [|c s IH]; simpl; [reflexivity|].
  intros H n. apply andb_prop in H as [Hc Hs].
  destruct (isDigit_value c Hc) as [Hr Hm]. rewrite Hm.
  destruct (byte c - 48 >? 9) eqn:E; [lia|]. apply IH, Hs.
Qed.

Lemma digitsValue_le (s : string) :
  allDigits s = true -> forall n, 0 <= n -> n <= digitsValue s n.
Proof.
  induction s as [|c s IH]; simpl; [lia|].
  intros H n Hn. apply andb_prop in H as [Hc Hs].
  destruct (isDigit_value c Hc) as [Hr _].
  specialize (IH Hs (n * 10 + (byte c - 48))). lia.
Qed.

Lemma parseUintLoop_value (s : string) :
  allDigits s = true ->
  forall n, 0 <= n -> digitsValue s n <= strconv.maxUint64 ->
            strconv.parseUintLoop s n = (digitsValue s n, None).
Proof.
  induction s as [|c s IH]; simpl; [reflexivity|].
  intros H n Hn Hmax. apply andb_prop in H as [Hc Hs]. rewrite Hc.
  destruct (isDigit_value c Hc) as [Hr _].
  pose proof (digitsValue_le s Hs (n * 10 + (byte c - 48)) ltac:(lia)) as Hle.
  assert (strconv.maxUint64 = 18446744073709551615) as Emax by reflexivity.
  assert (strconv.cutoff10 = 1844674407370955162) as Ecut by reflexivity.
  destruct (n >=? strconv.cutoff10) eqn:E1; [lia|].
  unfold strconv.wrap64. change (2 ^ 64) with 18446744073709551616.
  rewrite (Z.mod_small (n * 10)) by lia.
  rewrite (Z.mod_small (n * 10 + (byte c - 48))) by lia.
  destruct (n * 10 + (byte c - 48) <? n * 10) eqn:E2; [lia|].
  destruct (n * 10 + (byte c - 48) >? strconv.maxUint64) eqn:E3; [lia|].
  simpl. apply IH; auto. lia.
Qed.

Lemma string_of_uint_digits (d : Decimal.uint) :
  allDigits (NilEmpty.string_of_uint d) = true.
Proof. induction d; simpl; auto. Qed.

Lemma digitsValue_of_uint_acc (d : Decimal.uint) :
  forall acc, digitsValue (NilEmpty.string_of_uint d) (Z.pos acc) = Z.pos (Pos.of_uint_acc d acc).
Proof.
  induction d; intros acc;
    cbn [NilEmpty.string_of_uint digitsValue Pos.of_uint_acc]; [reflexivity| ..];
    rewrite <- IHd; f_equal;
    match goal with
    | |- context [byte ?c] => let v := eval vm_compute in (byte c) in change (byte c) with v
    end; lia.
Qed.

Lemma digitsValue_of_uint (d : Decimal.uint) :
  digitsValue (NilEmpty.string_of_uint d) 0 = Z.of_N (Pos.of_uint d).
Proof.
  induction d; cbn [NilEmpty.string_of_uint digitsValue Pos.of_uint];
    [reflexivity | exact IHd | ..]; apply (digitsValue_of_uint_acc d).
Qed.

(** The digits of a positive number: they are digits, there is one at
    least, and their value is the number. *)
Lemma to_uint_digits (p : positive) :
  exists c rest,
    NilZero.string_of_uint (Pos.to_uint p) = String c rest
    /\ isDigit c = true /\ allDigits rest = true
    /\ digitsValue (String c rest) 0 = Z.pos p.
Proof.
  pose proof (DecimalPos.Unsigned.of_to p) as Hof.
  pose proof (digitsValue_of_uint (Pos.to_uint p)) as Hv. rewrite Hof in Hv.
  pose proof (string_of_uint_digits (Pos.to_uint p)) as Hd.
  assert (NilZero.string_of_uint (Pos.to_uint p) = NilEmpty.string_of_uint (Pos.to_uint p)) as ->.
  { destruct (Pos.to_uint p) eqn:E; try reflexivity.
    exfalso. apply (DecimalPos.Unsigned.to_uint_nonnil p E). }
  destruct (NilEmpty.string_of_uint (Pos.to_uint p)) as [|c rest]; [discriminate Hv|].
  simpl in Hd. apply andb_prop in Hd as [Hc Hrest].
  exists c, rest. auto.
Qed.

Lemma digit_not_sign (c : ascii) :
  isDigit c = true -> strconv.isPlus c = false /\ strconv.isMinus c = false.
Proof. byte_cases c; intros; split; reflexivity. Qed.

Lemma toInt64_small (z : Z) : - 2 ^ 63 <= z < 2 ^ 63 -> strconv.toInt64 z = z.
Proof.
  intros H. unfold strconv.toInt64.
  change (2 ^ 63) with 9223372036854775808 in *.
  change (2 ^ 64) with 18446744073709551616.
  rewrite Z.mod_small; lia.
Qed.

Lemma toInt64_negate (z : Z) :
  0 <= z <= 2 ^ 63 -> strconv.toInt64 (- strconv.toInt64 z) = - z.
Proof.
  intros H. destruct (Z.eq_dec z (2 ^ 63)) as [->|Hne]; [reflexivity|].
  rewrite (toInt64_small z) by lia. apply toInt64_small.
  change (2 ^ 63) with 9223372036854775808 in *. lia.
Qed.

(** [Atoi] reads back what [Itoa] writes, for every 64-bit integer. *)
Lemma Atoi_Itoa (v : Z) :
  - 2 ^ 63 <= v < 2 ^ 63 -> strconv.Atoi (strconv.Itoa v) = inl v.
Proof.
  intros Hv. unfold strconv.Itoa.
  assert (strconv.maxUint64 = 18446744073709551615) as Emax by reflexivity.
  destruct v as [|p|p]; [reflexivity| |]; simpl Z.to_int; simpl NilZero.string_of_int;
    destruct (to_uint_digits p) as (c & rest & -> & Hc & Hrest & Hval);
    destruct (digit_not_sign c Hc) as [Hplus Hminus];
    assert (allDigits (String c rest) = true) as Hall by (simpl; rewrite Hc; exact Hrest);
    change (2 ^ 63) with 9223372036854775808 in Hv.
  - unfold strconv.Atoi. rewrite Hminus, Hplus. cbn [orb andb].
    destruct (_ <? 19)%nat.
    + rewrite (atoiLoop_value _ Hall), Hval. reflexivity.
    + unfold strconv.ParseInt. rewrite Hminus, Hplus. cbn [orb andb negb].
      unfold strconv.ParseUint.
      rewrite (parseUintLoop_value _ Hall 0) by lia. rewrite Hval.
      change (2 ^ 63) with 9223372036854775808.
      destruct (Z.pos p >=? 9223372036854775808) eqn:E; [lia|].
      rewrite toInt64_small; [reflexivity|].
      change (2 ^ 63) with 9223372036854775808. lia.
  - unfold strconv.Atoi. change (strconv.isMinus "-") with true.
    cbn [orb andb].
    change (String.length (String c rest) <? 1)%nat with false.
    destruct (_ <? 19)%nat.
    + rewrite (atoiLoop_value _ Hall), Hval. reflexivity.
    + unfold strconv.ParseInt. change (strconv.isMinus "-") with true.
      change (strconv.isPlus "-") with false. cbn [orb andb negb].
      unfold strconv.ParseUint.
      rewrite (parseUintLoop_value _ Hall 0) by lia. rewrite Hval.
      change (2 ^ 63) with 9223372036854775808.
      destruct (Z.pos p >? 9223372036854775808) eqn:E; [lia|].
      change 9223372036854775808 with (2 ^ 63).
      rewrite toInt64_negate; [reflexivity|].
      change (2 ^ 63) with 9223372036854775808. lia.
Qed.

(** X1: the limit parser reads the decimal renderings of two 64-bit
    integers, joined by a comma, back as those integers. *)
Corollary limitMap_decimal (a b : Z) :
  - 2 ^ 63 <= a < 2 ^ 63 -> - 2 ^ 63 <= b < 2 ^ 63 ->
  limitMap (strconv.Itoa a ++ "," ++ strconv.Itoa b) = ([], ([a; b], None)).
Proof.
  intros Ha Hb. rewrite (limitMap_two _ (strconv.Itoa a) (strconv.Itoa b)).
  - simpl. rewrite (Atoi_Itoa a Ha), (Atoi_Itoa b Hb). reflexivity.
  - apply Split_two; eapply Atoi_no_comma; apply Atoi_Itoa; assumption.
Qed.

(** ** The threshold evaluator *)


(** The level the evaluator gives a counter, read off its output. *)
Lemma processOverview_levels (o : Overview) (w0 w1 c0 c1 : Z) (wt ct : list Z) :
  exists l1 l2,
    processOverview (Some o) (w0 :: w1 :: wt) (c0 :: c1 :: ct)
      = ([report l1 (ready o) "messages ready";
          report l2 (unacknowledged o) "messages unacknowledged"], Returned tt)
    /\ (l1 = CRITICAL <-> c0 <= ready o)
    /\ (l1 = WARNING <-> ready o < c0 /\ w0 <= ready o)
    /\ (l2 = CRITICAL <-> c1 <= unacknowledged o)
    /\ (l2 = WARNING <-> unacknowledged o < c1 /\ w1 <= unacknowledged o).
Proof.
  unfold processOverview, ready, unacknowledged, report. cbn.
  destruct (MessagesReady (Totals o) >=? c0) eqn:E1;
    [exists CRITICAL | destruct (MessagesReady (Totals o) >=? w0) eqn:E2;
                        [exists WARNING | exists OK]];
    (destruct (MessagesUnack (Totals o) >=? c1) eqn:E3;
     [exists CRITICAL | destruct (MessagesUnack (Totals o) >=? w1) eqn:E4;
                         [exists WARNING | exists OK]]);
    cbn; (split; [reflexivity|]);
    repeat split; intros; try discriminate; try lia.
Qed.

(** C1: whatever the warning limits are (also when a critical limit is at or
    below the warning limit), the evaluator writes exactly two status lines,
    one per counter and each with one level, and a counter at or above its
    critical limit gets the level CRITICAL. *)
Theorem critical_precedence (o : Overview) (w0 w1 c0 c1 : Z) (wt ct : list Z) :
  exists l1 l2,
    processOverview (Some o) (w0 :: w1 :: wt) (c0 :: c1 :: ct)
      = ([report l1 (ready o) "messages ready";
          report l2 (unacknowledged o) "messages unacknowledged"], Returned tt)
    /\ (ready o >= c0 -> l1 = CRITICAL)
    /\ (unacknowledged o >= c1 -> l2 = CRITICAL).
Proof.
  destruct (processOverview_levels o w0 w1 c0 c1 wt ct)
    as (l1 & l2 & H & Hc1 & _ & Hc2 & _).
  exists l1, l2. split; [exact H|]. split; intros Hge.
  - apply Hc1. lia.
  - apply Hc2. lia.
Qed.

Lemma critical_precedence_witness :
  processOverview (Some (mkOverview (mkQueueTotals 7 60000))) [10000; 9] [50000; 5]
  = ([report CRITICAL 60000 "messages ready";
      report CRITICAL 7 "messages unacknowledged"], Returned tt).
Proof.
  destruct (critical_precedence (mkOverview (mkQueueTotals 7 60000)) 10000 9 50000 5 [] [])
    as (l1 & l2 & H & H1 & H2).
  rewrite H, H1, H2; [reflexivity | | ]; unfold ready, unacknowledged; simpl; lia.
Defined.

(** C2: the limits are inclusive.  A counter equal to its warning limit and
    below its critical limit gets WARNING; a counter equal to its critical
    limit gets CRITICAL, whatever the warning limit. *)
Theorem inclusive_limits (o : Overview) (w0 w1 c0 c1 : Z) (wt ct : list Z) :
  exists l1 l2,
    processOverview (Some o) (w0 :: w1 :: wt) (c0 :: c1 :: ct)
      = ([report l1 (ready o) "messages ready";
          report l2 (unacknowledged o) "messages unacknowledged"], Returned tt)
    /\ (ready o = w0 -> ready o < c0 -> l1 = WARNING)
    /\ (ready o = c0 -> l1 = CRITICAL)
    /\ (unacknowledged o = w1 -> unacknowledged o < c1 -> l2 = WARNING)
    /\ (unacknowledged o = c1 -> l2 = CRITICAL).
Proof.
  destruct (processOverview_levels o w0 w1 c0 c1 wt ct)
    as (l1 & l2 & H & Hc1 & Hw1 & Hc2 & Hw2).
  exists l1, l2. split; [exact H|]. repeat split; intros.
  - apply Hw1. lia.
  - apply Hc1. lia.
  - apply Hw2. lia.
  - apply Hc2. lia.
Qed.

Lemma inclusive_limits_witness :
  processOverview (Some (mkOverview (mkQueueTotals 50000 10000))) [10000; 10000] [50000; 50000]
  = ([report WARNING 10000 "messages ready";
      report CRITICAL 50000 "messages unacknowledged"], Returned tt).
Proof.
  destruct (inclusive_limits (mkOverview (mkQueueTotals 50000 10000))
              10000 10000 50000 50000 [] [])
    as (l1 & l2 & H & H1 & _ & _ & H2).
  rewrite H, H1, H2; [reflexivity | | | ]; unfold ready, unacknowledged; simpl; lia.
Defined.

(** *** The form of the output *)

Lemma Count_app (a b : string) (c : ascii) :
  strings.Count (a ++ b) c = (strings.Count a c + strings.Count b c)%nat.
Proof.
  induction a as [|x a IH]; simpl; [reflexivity|].
  destruct (Ascii.eqb x c); simpl; rewrite IH; reflexivity.
Qed.

Lemma string_of_uint_no_newline (d : Decimal.uint) :
  strings.Count (NilEmpty.string_of_uint d) (chr 10) = 0%nat.
Proof. induction d; simpl; auto. Qed.

(** The decimal rendering holds no newline. *)
Lemma Itoa_no_newline (v : Z) : strings.Count (strconv.Itoa v) (chr 10) = 0%nat.
Proof.
  unfold strconv.Itoa.
  destruct (Z.to_int v) as [d|d]; simpl.
  - destruct d; try reflexivity; apply (string_of_uint_no_newline (_ d)).
  - destruct d; try reflexivity; apply (string_of_uint_no_newline (_ d)).
Qed.


Lemma report_oneLine (l : level) (v : Z) (label : string) :
  strings.Count label (chr 10) = 0%nat -> oneLine (report l v label).
Proof.
  intros Hl. eexists. split; [reflexivity|].
  rewrite !Count_app, Itoa_no_newline, Hl. destruct l; reflexivity.
Qed.

Ltac pick_levels Hlines :=
  let pick l1 l2 :=
    (exists l1, l2; split; [reflexivity|]; split; [reflexivity|]; exact (Hlines _ l1 l2)) in
  first [ pick CRITICAL CRITICAL | pick CRITICAL WARNING | pick CRITICAL OK
        | pick WARNING CRITICAL | pick WARNING WARNING | pick WARNING OK
        | pick OK CRITICAL | pick OK WARNING | pick OK OK ].

(** C6: when the evaluator returns, the snapshot was there and the output is
    exactly two writes, the line of the ready messages and then the line of
    the unacknowledged messages; each is a level among OK, WARNING and
    CRITICAL, a space, the counter in decimal, a space and the label, and is
    one line. *)
Theorem processOverview_output (over : option Overview) (warning critical : list Z)
    (t : list event) :
  processOverview over warning critical = (t, Returned tt) ->
  exists o l1 l2,
    over = Some o
    /\ t = [report l1 (ready o) "messages ready";
            report l2 (unacknowledged o) "messages unacknowledged"]
    /\ Forall oneLine t.
Proof.
  assert (Hlines : forall o l1 l2,
             Forall oneLine [report l1 (ready o) "messages ready";
                             report l2 (unacknowledged o) "messages unacknowledged"]).
  { intros. repeat constructor; apply report_oneLine; reflexivity. }
  destruct over as [o|]; [|discriminate].
  unfold processOverview, ready, unacknowledged, report in *. cbn.
  destruct critical as [|c0 [|c1 ct]]; cbn.
  - discriminate.
  - destruct (MessagesReady (Totals o) >=? c0); cbn; [discriminate|].
    destruct warning as [|w0 wt]; cbn; [discriminate|].
    destruct (MessagesReady (Totals o) >=? w0); discriminate.
  - intros H. exists o.
    destruct (MessagesReady (Totals o) >=? c0); destruct (MessagesUnack (Totals o) >=? c1);
      destruct warning as [|w0 [|w1 wt]]; cbn in H; try discriminate;
      repeat match type of H with
             | context [if ?b then _ else _] => destruct b; cbn in H
             end;
      try discriminate; injection H as <-; pick_levels Hlines.
Qed.

Lemma processOverview_output_witness :
  exists o l1 l2,
    Some (mkOverview (mkQueueTotals 3000 12000)) = Some o
    /\ [Stdout ("WARNING 12000 messages ready" ++ newline);
        Stdout ("OK 3000 messages unacknowledged" ++ newline)]
       = [report l1 (ready o) "messages ready";
          report l2 (unacknowledged o) "messages unacknowledged"]
    /\ Forall oneLine [Stdout ("WARNING 12000 messages ready" ++ newline);
                       Stdout ("OK 3000 messages unacknowledged" ++ newline)].
Proof.
  apply (processOverview_output (Some (mkOverview (mkQueueTotals 3000 12000)))
           [10000; 10000] [50000; 50000]).
  reflexivity.
Defined.

(** ** Decoding the body *)




Lemma decodeQueueTotals_members_ready (members : list (string * json.value)) :
  forall st,
    existsb (fun m => json.foldsTo (fst m) "messages_ready") members = false ->
    MessagesReady (fst (fold_left decodeQueueTotalsMember members st)) = MessagesReady (fst st).
Proof.
  induction members as [|[k v] ms IH]; intros [cur saved] H; simpl in *; [reflexivity|].
  apply orb_false_elim in H as [Hk Hms]. rewrite (IH _ Hms).
  destruct (json.foldsTo k "messages_unacknowledged").
  - destruct (json.decodeInt v (MessagesUnack cur)); reflexivity.
  - rewrite Hk. reflexivity.
Qed.

Lemma decodeQueueTotals_members_unack (members : list (string * json.value)) :
  forall st,
    existsb (fun m => json.foldsTo (fst m) "messages_unacknowledged") members = false ->
    MessagesUnack (fst (fold_left decodeQueueTotalsMember members st)) = MessagesUnack (fst st).
Proof.
  induction members as [|[k v] ms IH]; intros [cur saved] H; simpl in *; [reflexivity|].
  apply orb_false_elim in H as [Hk Hms]. rewrite (IH _ Hms), Hk.
  destruct (json.foldsTo k "messages_ready"); [|reflexivity].
  destruct (json.decodeInt v (MessagesReady cur)); reflexivity.
Qed.

Lemma decodeQueueTotals_ready (v : json.value) (cur : QueueTotals) :
  givesField "messages_ready" v = false ->
  MessagesReady (fst (decodeQueueTotals v cur)) = MessagesReady cur.
Proof.
  destruct v; try reflexivity. simpl. intros H.
  apply (decodeQueueTotals_members_ready members (cur, None) H).
Qed.

Lemma decodeQueueTotals_unack (v : json.value) (cur : QueueTotals) :
  givesField "messages_unacknowledged" v = false ->
  MessagesUnack (fst (decodeQueueTotals v cur)) = MessagesUnack cur.
Proof.
  destruct v; try reflexivity. simpl. intros H.
  apply (decodeQueueTotals_members_unack members (cur, None) H).
Qed.

Lemma decodeOverview_members_ready (members : list (string * json.value)) :
  forall st,
    existsb (fun m => json.foldsTo (fst m) "queue_totals"
                      && givesField "messages_ready" (snd m)) members = false ->
    ready (fst (fold_left decodeOverviewMember members st)) = ready (fst st).
Proof.
  induction members as [|[k v] ms IH]; intros [cur saved] H; [reflexivity|].
  cbn [existsb fst snd] in H. apply orb_false_elim in H as [Hk Hms].
  cbn [fold_left]. rewrite (IH _ Hms). unfold decodeOverviewMember.
  destruct (json.foldsTo k "queue_totals"); [|reflexivity].
  pose proof (decodeQueueTotals_ready v (Totals cur) Hk) as Hq.
  destruct (decodeQueueTotals v (Totals cur)); exact Hq.
Qed.

Lemma decodeOverview_members_unack (members : list (string * json.value)) :
  forall st,
    existsb (fun m => json.foldsTo (fst m) "queue_totals"
                      && givesField "messages_unacknowledged" (snd m)) members = false ->
    unacknowledged (fst (fold_left decodeOverviewMember members st))
    = unacknowledged (fst st).
Proof.
  induction members as [|[k v] ms IH]; intros [cur saved] H; [reflexivity|].
  cbn [existsb fst snd] in H. apply orb_false_elim in H as [Hk Hms].
  cbn [fold_left]. rewrite (IH _ Hms). unfold decodeOverviewMember.
  destruct (json.foldsTo k "queue_totals"); [|reflexivity].
  pose proof (decodeQueueTotals_unack v (Totals cur) Hk) as Hq.
  destruct (decodeQueueTotals v (Totals cur)); exact Hq.
Qed.

(** A counter that the body does not give keeps the zero of the fresh
    [Overview]: whenever [Unmarshal] leaves a snapshot, a counter with no
    member for it under a [queue_totals] object is zero in it. *)
Lemma Unmarshal_missing_counters (body : string) (v : json.value) (o : Overview)
    (e : option json.error) :
  json.parse body = Some v ->
  Unmarshal body (Some zeroOverview) = (Some o, e) ->
  (givesCounter "messages_ready" v = false -> ready o = 0)
  /\ (givesCounter "messages_unacknowledged" v = false -> unacknowledged o = 0).
Proof.
  unfold Unmarshal. intros ->.
  assert (forall ms o' e',
             fold_left decodeOverviewMember ms (zeroOverview, None) = (o', e') ->
             (givesCounter "messages_ready" (json.Object ms) = false -> ready o' = 0)
             /\ (givesCounter "messages_unacknowledged" (json.Object ms) = false
                 -> unacknowledged o' = 0)) as Hobj.
  { intros ms o' e' H. split; intros Hg.
    - pose proof (decodeOverview_members_ready ms (zeroOverview, None) Hg) as Hr.
      rewrite H in Hr. exact Hr.
    - pose proof (decodeOverview_members_unack ms (zeroOverview, None) Hg) as Hr.
      rewrite H in Hr. exact Hr. }
  destruct v; simpl; try discriminate;
    try (intros H; injection H as <- _; split; reflexivity).
  destruct (fold_left decodeOverviewMember members (zeroOverview, None)) as [o' e'] eqn:E.
  intros H. injection H as <- _. eapply Hobj, E.
Qed.

(** The body of an empty object gives the snapshot [(0, 0)]. *)
Example Unmarshal_empty_object :
  Unmarshal "{}" (Some zeroOverview) = (Some zeroOverview, None).
Proof. reflexivity. Qed.

(** ** The run controller *)


Lemma output_app (t u : list event) : output (t ++ u) = (output t ++ output u)%list.
Proof.
  induction t as [|[] t IH]; simpl; rewrite ?IH; reflexivity.
Qed.

Lemma requests_app (t u : list event) : requests (t ++ u) = (requests t ++ requests u)%list.
Proof.
  induction t as [|[] t IH]; simpl; rewrite ?IH; reflexivity.
Qed.


Section RunProperties.

Variable World : Type.
Variable roundTrip : request -> World -> exchange * World.
Variable badURI : string -> option string.

Local Abbreviation fetch := (processHost World roundTrip badURI).
Local Abbreviation loop := (hostLoop World roundTrip badURI).
Local Abbreviation run := (main World roundTrip badURI).
Local Abbreviation served := (served World roundTrip badURI).


(** A failed fetch writes nothing to standard output. *)
Lemma processHost_failure_output (opt : options) (host : string) (w w1 : World)
    (t : list event) (over : option Overview) (e : error) :
  fetch opt host w = (t, w1, (over, Some e)) -> output t = [] /\ over = None.
Proof.
  unfold processHost.
  destruct (badURI _); [intros H; injection H as <- _ <- _; auto|].
  destruct (roundTrip _ w) as [[text|text|body] w'];
    try (intros H; injection H as <- _ <- _; auto).
  destruct (Unmarshal body (Some zeroOverview)) as [o [err|]];
    intros H; [injection H as <- _ <- _; auto | discriminate].
Qed.

(** The loop on a list of hosts of which the first ones are served and the
    next one fails. *)
Lemma hostLoop_failure (opt : options) (lw lc : list Z) (pre : list string) :
  forall w t_pre w1 host post t_h w2 over e,
    served opt lw lc pre w t_pre w1 ->
    fetch opt host w1 = (t_h, w2, (over, Some e)) ->
    loop opt lw lc (pre ++ host :: post)%list w
    = ((t_pre ++ t_h ++ [Log e])%list, w2, Returned tt).
Proof.
  induction pre as [|p pre IH]; intros w t_pre w1 host post t_h w2 over e Hs Hf.
  - inversion Hs; subst. simpl. rewrite Hf. reflexivity.
  - inversion Hs; subst. simpl.
    match goal with H : fetch opt p w = _ |- _ => rewrite H end.
    match goal with H : processOverview _ lw lc = _ |- _ => rewrite H end.
    erewrite IH by eauto.
    rewrite <- !app_assoc. reflexivity.
Qed.

Lemma hostLoop_served (opt : options) (lw lc : list Z) (pre : list string) :
  forall w t_pre w1,
    served opt lw lc pre w t_pre w1 ->
    loop opt lw lc pre w = (t_pre, w1, Returned tt).
Proof.
  induction pre as [|p pre IH]; intros w t_pre w1 Hs; inversion Hs; subst; simpl.
  - reflexivity.
  - match goal with H : fetch opt p w = _ |- _ => rewrite H end.
    match goal with H : processOverview _ lw lc = _ |- _ => rewrite H end.
    erewrite IH by eauto. reflexivity.
Qed.

(** C5: when the hosts before [host] are served and the fetch of [host]
    fails, the run is the events of the hosts before it, the events of the
    failed fetch and the log of its error, and then [main] returns: nothing
    of the hosts after it; standard output holds what the hosts before it
    gave, which is what the loop on those hosts alone gives. *)
Theorem host_failure_stops_the_run (opt : options) (w : World)
    (tw tc : list event) (lw lc : list Z) (pre post : list string) (host : string)
    (t_pre t_h : list event) (w1 w2 : World) (over : option Overview) (e : error) :
  limitMap (Warning opt) = (tw, (lw, None)) ->
  limitMap (Critical opt) = (tc, (lc, None)) ->
  strings.Split (Host opt) "," = (pre ++ host :: post)%list ->
  served opt lw lc pre w t_pre w1 ->
  fetch opt host w1 = (t_h, w2, (over, Some e)) ->
  run (inl opt) w = ((t_pre ++ t_h ++ [Log e])%list, w2, Returned tt)
  /\ output (t_pre ++ t_h ++ [Log e]) = output t_pre
  /\ requests (t_pre ++ t_h ++ [Log e]) = (requests t_pre ++ requests t_h)%list
  /\ loop opt lw lc pre w = (t_pre, w1, Returned tt).
Proof.
  intros Hw Hc Hhosts Hs Hf.
  pose proof (limitMap_writes (Warning opt)) as Ew. rewrite Hw in Ew. subst tw.
  pose proof (limitMap_writes (Critical opt)) as Ec. rewrite Hc in Ec. subst tc.
  repeat split.
  - unfold main. rewrite Hw, Hc, Hhosts.
    rewrite (hostLoop_failure opt lw lc pre w t_pre w1 host post t_h w2 over e Hs Hf).
    reflexivity.
  - destruct (processHost_failure_output _ _ _ _ _ _ _ Hf) as [Ho _].
    rewrite !output_app, Ho. simpl. rewrite app_nil_r. reflexivity.
  - rewrite !requests_app. simpl. rewrite app_nil_r. reflexivity.
  - apply hostLoop_served, Hs.
Qed.

(** C7: when the limit parser refuses the warning string or the critical
    string, [main] returns with the world as it was, no request issued and
    nothing written to standard output. *)
Theorem bad_limits_stop_the_run (opt : options) (w : World) :
  (exists e, snd (snd (limitMap (Warning opt))) = Some e)
  \/ (exists e, snd (snd (limitMap (Critical opt))) = Some e) ->
  exists t, run (inl opt) w = (t, w, Returned tt) /\ requests t = [] /\ output t = [].
Proof.
  intros H. unfold main.
  pose proof (limitMap_writes (Warning opt)) as Ew.
  pose proof (limitMap_writes (Critical opt)) as Ec.
  destruct (limitMap (Warning opt)) as [tw [lw [ew|]]].
  - eexists. split; [reflexivity|]. destruct ew; subst tw; auto.
  - subst tw. destruct (limitMap (Critical opt)) as [tc [lc [ec|]]].
    + eexists. split; [reflexivity|]. destruct ec; subst tc; auto.
    + destruct H as [[e H]|[e H]]; discriminate H.
Qed.

Lemma processOverview_no_index_panic (over : option Overview) (lw lc : list Z) :
  List.length lw = 2%nat -> List.length lc = 2%nat ->
  forall t i n, processOverview over lw lc <> (t, Panicked (IndexOutOfRange i n)).
Proof.
  intros Hw Hc t i n.
  destruct over as [o|]; [|discriminate].
  destruct lw as [|w0 [|w1 [|]]]; try discriminate.
  destruct lc as [|c0 [|c1 [|]]]; try discriminate.
  destruct (processOverview_levels o w0 w1 c0 c1 [] []) as (l1 & l2 & H & _).
  rewrite H. discriminate.
Qed.

Lemma hostLoop_no_index_panic (opt : options) (lw lc : list Z) (hosts : list string) :
  List.length lw = 2%nat -> List.length lc = 2%nat ->
  forall w t w' i n, loop opt lw lc hosts w <> (t, w', Panicked (IndexOutOfRange i n)).
Proof.
  intros Hw Hc. induction hosts as [|h hosts IH]; intros w t w' i n; simpl; [discriminate|].
  destruct (fetch opt h w) as [[th w1] [over [e|]]]; [discriminate|].
  pose proof (processOverview_no_index_panic over lw lc Hw Hc) as Hp.
  destruct (processOverview over lw lc) as [t' [[]|p]].
  - specialize (IH w1). destruct (loop opt lw lc hosts w1) as [[t'' w2] r].
    intros H. injection H as _ _ ->. eapply IH. reflexivity.
  - intros H. injection H as _ _ ->. eapply Hp. reflexivity.
Qed.

(** C10: a successful limit parser returns exactly two elements; so with the
    warning and critical limits it returned, the evaluator never panics on
    an index, whatever the snapshot; and no run of [main] panics on an
    index. *)
Theorem limits_index_in_bounds :
  (forall s t l, limitMap s = (t, (l, None)) -> List.length l = 2%nat)
  /\ (forall sw sc tw tc lw lc,
        limitMap sw = (tw, (lw, None)) -> limitMap sc = (tc, (lc, None)) ->
        forall over t i n,
          processOverview over lw lc <> (t, Panicked (IndexOutOfRange i n)))
  /\ (forall parsed w t w' i n,
        run parsed w <> (t, w', Panicked (IndexOutOfRange i n))).
Proof.
  split; [exact limitMap_length|]. split.
  - intros sw sc tw tc lw lc Hw Hc over.
    apply processOverview_no_index_panic; eapply limitMap_length; eauto.
  - intros [opt|err] w t w' i n; unfold main; [|discriminate].
    destruct (limitMap (Warning opt)) as [tw [lw [ew|]]] eqn:Ew; [discriminate|].
    destruct (limitMap (Critical opt)) as [tc [lc [ec|]]] eqn:Ec; [discriminate|].
    pose proof (hostLoop_no_index_panic opt lw lc (strings.Split (Host opt) ",")
                  (limitMap_length _ _ _ Ew) (limitMap_length _ _ _ Ec) w) as Hp.
    destruct (loop opt lw lc (strings.Split (Host opt) ",") w) as [[t3 w3] r].
    intros H. injection H as _ _ ->. eapply Hp. reflexivity.
Qed.

End RunProperties.

(** *** Runs on a scripted network *)


Lemma host_failure_stops_the_run_witness :
  let t_pre := [HTTP (requestTo "a");
                report OK 0 "messages ready"; report OK 0 "messages unacknowledged"] in
  let t_h := [HTTP (requestTo "b")] in
  let e := TransportError "timeout" in
  main (list exchange) scriptedRoundTrip anyURI (inl threeHosts)
       [Body "{}"; DoFailed "timeout"; Body "{}"]
  = ((t_pre ++ t_h ++ [Log e])%list, [Body "{}"], Returned tt)
  /\ output (t_pre ++ t_h ++ [Log e]) = output t_pre
  /\ requests (t_pre ++ t_h ++ [Log e]) = (requests t_pre ++ requests t_h)%list
  /\ hostLoop (list exchange) scriptedRoundTrip anyURI threeHosts
       [10000; 10000] [50000; 50000] ["a"] [Body "{}"; DoFailed "timeout"; Body "{}"]
     = (t_pre, [DoFailed "timeout"; Body "{}"], Returned tt).
Proof.
  apply (host_failure_stops_the_run (list exchange) scriptedRoundTrip anyURI threeHosts
           [Body "{}"; DoFailed "timeout"; Body "{}"] [] [] [10000; 10000] [50000; 50000]
           ["a"] ["c"] "b" _ _ [DoFailed "timeout"; Body "{}"] [Body "{}"] None
           (TransportError "timeout")); try reflexivity.
  apply (served_cons (list exchange) scriptedRoundTrip anyURI threeHosts
           [10000; 10000] [50000; 50000] "a" []
           [Body "{}"; DoFailed "timeout"; Body "{}"] [HTTP (requestTo "a")]
           [DoFailed "timeout"; Body "{}"] (Some zeroOverview)
           [report OK 0 "messages ready"; report OK 0 "messages unacknowledged"] []
           [DoFailed "timeout"; Body "{}"]);
    try reflexivity.
  apply served_nil.
Defined.


Lemma bad_limits_stop_the_run_witness :
  exists t,
    main (list exchange) scriptedRoundTrip anyURI (inl oneLimit) [Body "{}"; Body "{}"]
    = (t, [Body "{}"; Body "{}"], Returned tt)
    /\ requests t = [] /\ output t = [].
Proof.
  apply (bad_limits_stop_the_run (list exchange) scriptedRoundTrip anyURI oneLimit).
  left. eexists. reflexivity.
Defined.

Lemma limits_index_in_bounds_witness :
  List.length [10000; 10000] = 2%nat
  /\ processOverview (Some zeroOverview) [10000; 10000] [50000; 50000]
     <> ([], Panicked (IndexOutOfRange 1 1)).
Proof.
  destruct (limits_index_in_bounds (list exchange) scriptedRoundTrip anyURI)
    as (Hlen & Hidx & _).
  split.
  - apply (Hlen "10000,10000" []). reflexivity.
  - apply (Hidx "10000,10000" "50000,50000" [] []); reflexivity.
Defined.

(** C8, at the body [null]: [Unmarshal] succeeds and sets the pointer to nil,
    so [processHost] returns no snapshot and no error, and [main] then
    panics in [processOverview] when it reads the counters; no snapshot
    [(0, 0)] is produced. *)
Theorem null_body_nil_snapshot :
  Unmarshal "null" (Some zeroOverview) = (None, None)
  /\ processHost (list exchange) scriptedRoundTrip anyURI defaults "localhost" [Body "null"]
     = ([HTTP (requestTo "localhost")], [], (None, None))
  /\ main (list exchange) scriptedRoundTrip anyURI (inl defaults) [Body "null"]
     = ([HTTP (requestTo "localhost")], [], Panicked NilDereference).
Proof. repeat split. Qed.

(** ** The scenarios of the specification *)


Example scenario_A :
  thresholds (mkOverview (mkQueueTotals 3000 5000))
  = ([Stdout ("OK 5000 messages ready" ++ newline);
      Stdout ("OK 3000 messages unacknowledged" ++ newline)], Returned tt).
Proof. reflexivity. Qed.

Example scenario_B :
  thresholds (mkOverview (mkQueueTotals 3000 12000))
  = ([Stdout ("WARNING 12000 messages ready" ++ newline);
      Stdout ("OK 3000 messages unacknowledged" ++ newline)], Returned tt).
Proof. reflexivity. Qed.

Example scenario_C :
  thresholds (mkOverview (mkQueueTotals 3000 60000))
  = ([Stdout ("CRITICAL 60000 messages ready" ++ newline);
      Stdout ("OK 3000 messages unacknowledged" ++ newline)], Returned tt).
Proof. reflexivity. Qed.

Example scenario_D :
  main (list exchange) scriptedRoundTrip anyURI (inl oneLimit) [Body "{}"; Body "{}"]
  = ([Log malformed], [Body "{}"; Body "{}"], Returned tt).
Proof. reflexivity. Qed.

Example scenario_E :
  main (list exchange) scriptedRoundTrip anyURI
       (inl (mkOptions "a,b" "15672" "guest" "guest" "10000,10000" "50000,50000" false))
       [DoFailed "timeout"; Body "{}"]
  = ([HTTP (requestTo "a"); Log (TransportError "timeout")], [Body "{}"], Returned tt).
Proof. reflexivity. Qed.

Example body_full :
  Unmarshal (quoted "{'queue_totals': {'messages_ready': 12, 'messages_unacknowledged': 3}}")
            (Some zeroOverview)
  = (Some (mkOverview (mkQueueTotals 3 12)), None).
Proof. reflexivity. Qed.

Example body_without_ready :
  Unmarshal (quoted "{'queue_totals': {'messages_unacknowledged': 3}, 'node': 'rabbit@a'}")
            (Some zeroOverview)
  = (Some (mkOverview (mkQueueTotals 3 0)), None).
Proof. reflexivity. Qed.

Example body_not_json :
  Unmarshal "<html>" (Some zeroOverview) = (Some zeroOverview, Some json.SyntaxError).
Proof. reflexivity. Qed.

Example body_wrong_type :
  Unmarshal (quoted "{'queue_totals': {'messages_ready': '12'}}") (Some zeroOverview)
  = (Some zeroOverview, Some (json.UnmarshalTypeError "string")).
Proof. reflexivity. Qed.

(** * Further properties *)

(** ** The limit parser, continued *)

Lemma toInt64_range (z : Z) : int64 (strconv.toInt64 z).
Proof.
  unfold int64, strconv.toInt64.
  change (2 ^ 63) with 9223372036854775808.
  change (2 ^ 64) with 18446744073709551616.
  pose proof (Z.mod_pos_bound (z + 9223372036854775808) 18446744073709551616 ltac:(lia)).
  lia.
Qed.

Lemma ParseInt_range (s : string) (a : Z) : strconv.ParseInt s = inl a -> int64 a.
Proof.
  unfold strconv.ParseInt. destruct s as [|c rest]; [discriminate|].
  destruct (strconv.ParseUint _) as [un [[|]|]]; try discriminate;
    repeat match goal with |- context [if ?b then _ else _] => destruct b end;
    try discriminate; intros H; injection H as <-; apply toInt64_range.
Qed.

Lemma digitsValue_bound (s : string) :
  allDigits s = true ->
  forall n, 0 <= n -> digitsValue s n < (n + 1) * 10 ^ Z.of_nat (String.length s).
Proof.
  induction s as [|c s IH]; intros H n Hn.
  - simpl. lia.
  - simpl in H. apply andb_prop in H as [Hc Hs].
    destruct (isDigit_value c Hc) as [Hr _].
    cbn [digitsValue String.length].
    specialize (IH Hs (n * 10 + (byte c - 48)) ltac:(lia)).
    rewrite Nat2Z.inj_succ, Z.pow_succ_r by lia.
    assert (0 < 10 ^ Z.of_nat (String.length s)) by (apply Z.pow_pos_nonneg; lia).
    nia.
Qed.

(** Whatever [Atoi] returns without error is a 64-bit integer. *)
Lemma Atoi_range (s : string) (a : Z) : strconv.Atoi s = inl a -> int64 a.
Proof.
  destruct s as [|c rest]; [discriminate|].
  unfold strconv.Atoi.
  destruct (String.length (String c rest) <? 19)%nat eqn:Elen.
  - destruct (_ && _); [discriminate|].
    set (s1 := if strconv.isMinus c || strconv.isPlus c then rest else String c rest).
    destruct (strconv.atoiLoop s1 0) as [n|] eqn:E; [|discriminate].
    pose proof (atoiLoop_digits s1 0 n E) as Hd.
    rewrite (atoiLoop_value s1 Hd) in E. injection E as E.
    pose proof (digitsValue_bound s1 Hd 0 ltac:(lia)) as Hb.
    pose proof (digitsValue_le s1 Hd 0 ltac:(lia)) as Hl.
    assert (String.length s1 <= 18)%nat as Hlen.
    { apply Nat.ltb_lt in Elen. subst s1.
      destruct (strconv.isMinus c || strconv.isPlus c); simpl in *; lia. }
    assert (10 ^ Z.of_nat (String.length s1) <= 10 ^ 18) as Hp
      by (apply Z.pow_le_mono_r; lia).
    change (10 ^ 18) with 1000000000000000000 in Hp.
    intros H. injection H as <-. unfold int64.
    change (2 ^ 63) with 9223372036854775808.
    destruct (strconv.isMinus c); lia.
  - destruct (strconv.ParseInt (String c rest)) eqn:E; [|discriminate].
    intros H. injection H as <-. eapply ParseInt_range, E.
Qed.

Lemma Split_join_two (s p q : string) :
  strings.Split s "," = [p; q] -> s = p ++ "," ++ q.
Proof.
  intros H. assert (strings.Count s "," = 1%nat) as Hc.
  { pose proof (Split_length s ",") as Hl. rewrite H in Hl. simpl in Hl. lia. }
  destruct (Split_one_sep s "," Hc) as (p' & q' & Hs & Hsp & _ & _).
  rewrite H in Hsp. injection Hsp as -> ->. exact Hs.
Qed.

(** A successful limit parser logged nothing and converted the two pieces
    of its argument. *)
Lemma limitMap_success (s : string) (t : list event) (l : list Z) :
  limitMap s = (t, (l, None)) ->
  t = [] /\ exists sa sb a b,
    s = sa ++ "," ++ sb /\ strconv.Atoi sa = inl a /\ strconv.Atoi sb = inl b
    /\ l = [a; b].
Proof.
  unfold limitMap.
  destruct (List.length (strings.Split s ",") =? 2)%nat eqn:E; simpl; [|discriminate].
  apply Nat.eqb_eq in E.
  destruct (strings.Split s ",") as [|p [|q [|]]] eqn:Hsp; try discriminate.
  simpl. destruct (strconv.Atoi p) as [a|] eqn:Ha; [|discriminate].
  destruct (strconv.Atoi q) as [b|] eqn:Hb; [|discriminate].
  intros H. injection H as <- <-. split; [reflexivity|].
  exists p, q, a, b. repeat split; auto. apply Split_join_two, Hsp.
Qed.

Lemma limitMap_decimal_witness :
  limitMap (strconv.Itoa 10000 ++ "," ++ strconv.Itoa (-9223372036854775808))
  = ([], ([10000; -9223372036854775808], None)).
Proof.
  apply (limitMap_decimal 10000 (-9223372036854775808));
    change (2 ^ 63) with 9223372036854775808; lia.
Defined.

(** X2: the limit parser succeeds exactly on the strings [sa,sb] whose two
    pieces [Atoi] converts; it then logs nothing and returns the two values
    in order. *)
Theorem limitMap_accepts (s : string) (t : list event) (l : list Z) :
  limitMap s = (t, (l, None))
  <-> t = [] /\ exists sa sb a b,
        s = sa ++ "," ++ sb /\ strconv.Atoi sa = inl a /\ strconv.Atoi sb = inl b
        /\ l = [a; b].
Proof.
  split; [apply limitMap_success|].
  intros (-> & sa & sb & a & b & -> & Ha & Hb & ->).
  rewrite (limitMap_two _ sa sb).
  - simpl. rewrite Ha, Hb. reflexivity.
  - apply Split_two; eapply Atoi_no_comma; eauto.
Qed.

Lemma limitMap_accepts_witness :
  exists sa sb a b,
    "+12,-0003" = sa ++ "," ++ sb /\ strconv.Atoi sa = inl a /\ strconv.Atoi sb = inl b
    /\ [12; -3] = [a; b].
Proof.
  apply (proj1 (limitMap_accepts "+12,-0003" [] [12; -3])). reflexivity.
Defined.

(** X3: the limits the parser returns are 64-bit integers. *)
Theorem limitMap_int64 (s : string) (t : list event) (l : list Z) :
  limitMap s = (t, (l, None)) -> Forall int64 l.
Proof.
  intros H. apply limitMap_success in H as (_ & sa & sb & a & b & _ & Ha & Hb & ->).
  repeat constructor; eapply Atoi_range; eauto.
Qed.

Lemma limitMap_int64_witness : Forall int64 [9223372036854775807; -9223372036854775808].
Proof.
  apply (limitMap_int64 "9223372036854775807,-9223372036854775808" []). reflexivity.
Defined.

(** ** The threshold evaluator, continued *)

Lemma report_level_inj (l l' : level) (v : Z) (label : string) :
  report l v label = report l' v label -> l = l'.
Proof. destruct l, l'; try reflexivity; intros H; discriminate H. Qed.

(** X5: the level OK is given exactly to a counter below both of its limits,
    and when the critical limit is at or below the warning limit the level
    WARNING is never given. *)
Theorem verdict_table (o : Overview) (w0 w1 c0 c1 : Z) (wt ct : list Z) :
  exists l1 l2,
    processOverview (Some o) (w0 :: w1 :: wt) (c0 :: c1 :: ct)
      = ([report l1 (ready o) "messages ready";
          report l2 (unacknowledged o) "messages unacknowledged"], Returned tt)
    /\ (l1 = OK <-> ready o < c0 /\ ready o < w0)
    /\ (l2 = OK <-> unacknowledged o < c1 /\ unacknowledged o < w1)
    /\ (c0 <= w0 -> l1 <> WARNING)
    /\ (c1 <= w1 -> l2 <> WARNING).
Proof.
  destruct (processOverview_levels o w0 w1 c0 c1 wt ct)
    as (l1 & l2 & H & Hc1 & Hw1 & Hc2 & Hw2).
  exists l1, l2. split; [exact H|].
  assert (forall (l : level) v c w,
             (l = CRITICAL <-> c <= v) -> (l = WARNING <-> v < c /\ w <= v) ->
             (l = OK <-> v < c /\ v < w) /\ (c <= w -> l <> WARNING)) as Htable.
  { intros l v c w [Hc Hc'] [Hw Hw']. split; [split|].
    - intros ->. destruct (Z_lt_le_dec v c) as [Hlt|Hge];
        [|specialize (Hc' Hge); discriminate].
      split; [exact Hlt|]. destruct (Z_lt_le_dec v w) as [Hlt'|Hge']; [exact Hlt'|].
      specialize (Hw' (conj Hlt Hge')). discriminate.
    - intros [Hvc Hvw]. destruct l; [reflexivity| |].
      + specialize (Hw eq_refl). lia.
      + specialize (Hc eq_refl). lia.
    - intros Hcw ->. specialize (Hw eq_refl). lia. }
  destruct (Htable l1 (ready o) c0 w0 Hc1 Hw1) as [Ho1 Hn1].
  destruct (Htable l2 (unacknowledged o) c1 w1 Hc2 Hw2) as [Ho2 Hn2].
  auto.
Qed.

Lemma verdict_table_witness :
  processOverview (Some (mkOverview (mkQueueTotals 3000 5000))) [10000; 10000] [50000; 50000]
  = ([report OK 5000 "messages ready"; report OK 3000 "messages unacknowledged"],
     Returned tt).
Proof.
  destruct (verdict_table (mkOverview (mkQueueTotals 3000 5000))
              10000 10000 50000 50000 [] [])
    as (l1 & l2 & H & H1 & H2 & _).
  rewrite H. rewrite (proj2 H1), (proj2 H2); [reflexivity | | ];
    unfold ready, unacknowledged; simpl; lia.
Defined.

(** X6: the level grows with the counter: under the same limits, of two
    snapshots the one with the larger counter never gets the milder level
    (OK below WARNING below CRITICAL), for each of the two counters. *)
Theorem verdict_monotone (o o' : Overview) (w0 w1 c0 c1 : Z) (wt ct : list Z) :
  exists l1 l2 l1' l2',
    processOverview (Some o) (w0 :: w1 :: wt) (c0 :: c1 :: ct)
      = ([report l1 (ready o) "messages ready";
          report l2 (unacknowledged o) "messages unacknowledged"], Returned tt)
    /\ processOverview (Some o') (w0 :: w1 :: wt) (c0 :: c1 :: ct)
      = ([report l1' (ready o') "messages ready";
          report l2' (unacknowledged o') "messages unacknowledged"], Returned tt)
    /\ (ready o <= ready o' -> severity l1 <= severity l1')
    /\ (unacknowledged o <= unacknowledged o' -> severity l2 <= severity l2').
Proof.
  destruct (processOverview_levels o w0 w1 c0 c1 wt ct)
    as (l1 & l2 & H & Hc1 & Hw1 & Hc2 & Hw2).
  destruct (processOverview_levels o' w0 w1 c0 c1 wt ct)
    as (l1' & l2' & H' & Hc1' & Hw1' & Hc2' & Hw2').
  exists l1, l2, l1', l2'. split; [exact H|]. split; [exact H'|].
  assert (forall (l l' : level) v v' c w,
             (l = CRITICAL <-> c <= v) -> (l = WARNING <-> v < c /\ w <= v) ->
             (l' = CRITICAL <-> c <= v') -> (l' = WARNING <-> v' < c /\ w <= v') ->
             v <= v' -> severity l <= severity l') as Hmono.
  { intros l l' v v' c w Hc Hw Hc' Hw' Hv.
    destruct l; simpl.
    - destruct l'; simpl; lia.
    - destruct (proj1 Hw eq_refl) as [Hvc Hwv].
      destruct (Z_lt_le_dec v' c) as [Hlt|Hge].
      + assert (w <= v') as Hwv' by lia.
        rewrite (proj2 Hw' (conj Hlt Hwv')). simpl. lia.
      + rewrite (proj2 Hc' Hge). simpl. lia.
    - pose proof (proj1 Hc eq_refl) as Hcv.
      assert (c <= v') as Hcv' by lia.
      rewrite (proj2 Hc' Hcv'). simpl. lia. }
  split; intros Hv; eapply Hmono; eauto.
Qed.

Lemma verdict_monotone_witness :
  exists l1 l1',
    fst (processOverview (Some (mkOverview (mkQueueTotals 0 12000)))
           [10000; 10000] [50000; 50000])
    = [report l1 12000 "messages ready"; report OK 0 "messages unacknowledged"]
    /\ fst (processOverview (Some (mkOverview (mkQueueTotals 0 60000)))
              [10000; 10000] [50000; 50000])
       = [report l1' 60000 "messages ready"; report OK 0 "messages unacknowledged"]
    /\ severity l1 <= severity l1'.
Proof.
  destruct (verdict_monotone (mkOverview (mkQueueTotals 0 12000))
              (mkOverview (mkQueueTotals 0 60000)) 10000 10000 50000 50000 [] [])
    as (l1 & l2 & l1' & l2' & H & H' & Hm & _).
  exists l1, l1'. rewrite H, H'.
  assert (l2 = OK) as -> by (destruct l2; vm_compute in H; congruence).
  assert (l2' = OK) as -> by (destruct l2'; vm_compute in H'; congruence).
  repeat split. apply Hm. unfold ready. simpl. lia.
Defined.

(** ** The decimal rendering as a JSON number *)

Lemma unorm_D0 (d u : Decimal.uint) : Decimal.unorm d = Decimal.D0 u -> u = Decimal.Nil.
Proof.
  induction d; simpl; intros H; try discriminate; auto.
  injection H as <-. reflexivity.
Qed.

Lemma to_uint_no_leading_zero (p : positive) (u : Decimal.uint) :
  Pos.to_uint p <> Decimal.D0 u.
Proof.
  intros E.
  pose proof (DecimalPos.Unsigned.to_of (Pos.to_uint p)) as H.
  rewrite DecimalPos.Unsigned.of_to in H. simpl in H.
  rewrite E in H. simpl in H. symmetry in H. apply unorm_D0 in H. subst u.
  apply (DecimalPos.Unsigned.to_uint_nonzero p E).
Qed.

(** The digits of a positive number start with a digit from 1 to 9. *)
Lemma to_uint_leading (p : positive) :
  exists c rest,
    NilZero.string_of_uint (Pos.to_uint p) = String c rest
    /\ json.inRange 49 57 c = true /\ allDigits rest = true.
Proof.
  pose proof (to_uint_no_leading_zero p) as Hz.
  pose proof (DecimalPos.Unsigned.to_uint_nonnil p) as Hn.
  destruct (Pos.to_uint p) as [|u|u|u|u|u|u|u|u|u|u];
    [contradiction | exfalso; apply (Hz u); reflexivity | ..];
    (eexists; exists (NilEmpty.string_of_uint u); split; [reflexivity|];
     split; [reflexivity | apply string_of_uint_digits]).
Qed.

Lemma skipDigits_digits (s : string) : allDigits s = true -> json.skipDigits s = EmptyString.
Proof.
  induction s as [|c s IH]; simpl; [reflexivity|].
  intros H. apply andb_prop in H as [-> Hs]. auto.
Qed.

Lemma leading_digit (c : ascii) :
  json.inRange 49 57 c = true ->
  isDigit c = true /\ (byte c =? 48) = false /\ json.isWordChar c = true
  /\ json.isSpace c = false /\ (byte c =? 34) = false /\ json.punct c = None
  /\ Ascii.eqb c "n" = false /\ Ascii.eqb c "t" = false /\ Ascii.eqb c "f" = false
  /\ (byte c =? 45) = false.
Proof. byte_cases c; intros; repeat split. Qed.

Lemma digit_wordChar (c : ascii) : isDigit c = true -> json.isWordChar c = true.
Proof. unfold json.isWordChar. intros ->. reflexivity. Qed.

Lemma allDigits_wordChars (s : string) : allDigits s = true -> allWordChars s = true.
Proof.
  induction s as [|c s IH]; simpl; [reflexivity|].
  intros H. apply andb_prop in H as [Hc Hs]. rewrite (digit_wordChar c Hc). auto.
Qed.

(** The shape of a decimal rendering: a digit from 1 to 9 and digits, after
    a minus sign when negative; or the digit 0. *)
Lemma Itoa_shape (v : Z) :
  strconv.Itoa v = "0"
  \/ (exists c rest, json.inRange 49 57 c = true /\ allDigits rest = true
        /\ (strconv.Itoa v = String c rest \/ strconv.Itoa v = String "-" (String c rest))).
Proof.
  unfold strconv.Itoa. destruct v as [|p|p]; [left; reflexivity| |]; right;
    destruct (to_uint_leading p) as (c & rest & E & Hc & Hrest);
    exists c, rest; simpl; rewrite E; auto.
Qed.

Lemma validNumber_Itoa (v : Z) : json.validNumber (strconv.Itoa v) = true.
Proof.
  destruct (Itoa_shape v) as [->|(c & rest & Hc & Hrest & [->| ->])]; [reflexivity| |];
    destruct (leading_digit c Hc) as (_ & Hz & _ & _ & _ & _ & _ & _ & _ & Hm).
  - unfold json.validNumber. rewrite Hm. unfold json.validInt.
    rewrite Hz, Hc, (skipDigits_digits rest Hrest). reflexivity.
  - unfold json.validNumber. change (byte "-" =? 45) with true. cbn iota.
    unfold json.validInt. rewrite Hz, Hc, (skipDigits_digits rest Hrest). reflexivity.
Qed.

Lemma wordToken_Itoa (v : Z) :
  json.wordToken (strconv.Itoa v) = Some (json.Lit (json.Number (strconv.Itoa v))).
Proof.
  unfold json.wordToken. rewrite validNumber_Itoa.
  destruct (Itoa_shape v) as [->|(c & rest & Hc & Hrest & [->| ->])]; [reflexivity| |].
  - destruct (leading_digit c Hc) as (_ & _ & _ & _ & _ & _ & Hn & Ht & Hf & _).
    cbn [String.eqb]. rewrite Hn, Ht, Hf. reflexivity.
  - reflexivity.
Qed.

Lemma Itoa_wordChars (v : Z) : allWordChars (strconv.Itoa v) = true.
Proof.
  destruct (Itoa_shape v) as [->|(c & rest & Hc & Hrest & [->| ->])]; [reflexivity| |];
    destruct (leading_digit c Hc) as (_ & _ & Hw & _);
    cbn [allWordChars]; rewrite Hw, (allDigits_wordChars rest Hrest); reflexivity.
Qed.

Lemma append_snoc (w : string) (c : ascii) (s : string) :
  json.snoc w c ++ s = w ++ String c s.
Proof.
  unfold json.snoc. induction w as [|x w IH]; simpl; [reflexivity|]. rewrite IH. reflexivity.
Qed.

Lemma append_assoc (a b c : string) : (a ++ b) ++ c = a ++ b ++ c.
Proof. induction a as [|x a IH]; simpl; [reflexivity|]. rewrite IH. reflexivity. Qed.

(** The lexer reads a run of word bytes into the word it is in. *)
Lemma lex_word (ds : string) :
  allWordChars ds = true ->
  forall w rest, json.lex (ds ++ rest) (json.InWord w) = json.lex rest (json.InWord (w ++ ds)).
Proof.
  induction ds as [|c ds IH]; intros H w rest.
  - simpl. replace (w ++ "") with w; [reflexivity|].
    induction w as [|x w IHw]; simpl; [reflexivity|]. rewrite <- IHw. reflexivity.
  - simpl in H. apply andb_prop in H as [Hc Hds].
    cbn [append json.lex]. rewrite Hc. rewrite (IH Hds). rewrite append_snoc. reflexivity.
Qed.

(** From between two tokens, the lexer reads a decimal rendering as one
    word. *)
Lemma lex_Itoa (v : Z) (rest : string) :
  json.lex (strconv.Itoa v ++ rest) json.InSpace
  = json.lex rest (json.InWord (strconv.Itoa v)).
Proof.
  pose proof (Itoa_wordChars v) as Hw.
  destruct (strconv.Itoa v) as [|c s] eqn:E.
  - destruct (Itoa_shape v) as [H|(c & r & _ & _ & [H|H])]; rewrite E in H; discriminate.
  - cbn [allWordChars] in Hw. apply andb_prop in Hw as [Hc Hs].
    assert (json.isSpace c = false /\ (byte c =? 34) = false /\ json.punct c = None)
      as (Hsp & Hq & Hp).
    { destruct (Itoa_shape v) as [H|(c' & r & Hc' & _ & [H|H])]; rewrite E in H;
        injection H as -> _; try (repeat split; reflexivity).
      destruct (leading_digit c' Hc') as (_ & _ & _ & ? & ? & ? & _). auto. }
    cbn [append json.lex]. rewrite Hsp, Hq, Hp, Hc.
    apply (lex_word s Hs (String c EmptyString) rest).
Qed.

Lemma ParseInt_Itoa (v : Z) : int64 v -> strconv.ParseInt (strconv.Itoa v) = inl v.
Proof.
  intros Hv. unfold int64 in Hv. unfold strconv.Itoa.
  assert (strconv.maxUint64 = 18446744073709551615) as Emax by reflexivity.
  destruct v as [|p|p]; [reflexivity| |]; simpl Z.to_int; simpl NilZero.string_of_int;
    destruct (to_uint_digits p) as (c & rest & -> & Hc & Hrest & Hval);
    destruct (digit_not_sign c Hc) as [Hplus Hminus];
    assert (allDigits (String c rest) = true) as Hall by (simpl; rewrite Hc; exact Hrest);
    change (2 ^ 63) with 9223372036854775808 in Hv.
  - unfold strconv.ParseInt. rewrite Hminus, Hplus. cbn [orb andb negb].
    unfold strconv.ParseUint.
    rewrite (parseUintLoop_value _ Hall 0) by lia. rewrite Hval.
    change (2 ^ 63) with 9223372036854775808.
    destruct (Z.pos p >=? 9223372036854775808) eqn:E; [lia|].
    rewrite toInt64_small; [reflexivity|].
    change (2 ^ 63) with 9223372036854775808. lia.
  - unfold strconv.ParseInt. change (strconv.isMinus "-") with true.
    change (strconv.isPlus "-") with false. cbn [orb andb negb].
    unfold strconv.ParseUint.
    rewrite (parseUintLoop_value _ Hall 0) by lia. rewrite Hval.
    change (2 ^ 63) with 9223372036854775808.
    destruct (Z.pos p >? 9223372036854775808) eqn:E; [lia|].
    change 9223372036854775808 with (2 ^ 63).
    rewrite toInt64_negate; [reflexivity|].
    change (2 ^ 63) with 9223372036854775808. lia.
Qed.

(** ** The body of an overview *)

Lemma lex_body_head (rest : string) :
  json.lex (quoted "{'queue_totals':{'messages_ready':" ++ rest) json.InSpace
  = json.push json.LBrace
      (json.push (json.Lit (json.Str "queue_totals"))
         (json.push json.Colon
            (json.push json.LBrace
               (json.push (json.Lit (json.Str "messages_ready"))
                  (json.push json.Colon (json.lex rest json.InSpace)))))).
Proof. reflexivity. Qed.

Lemma lex_body_middle (w rest : string) :
  json.lex (quoted ",'messages_unacknowledged':" ++ rest) (json.InWord w)
  = match json.wordToken w with
    | Some t =>
        json.push t
          (json.push json.Comma
             (json.push (json.Lit (json.Str "messages_unacknowledged"))
                (json.push json.Colon (json.lex rest json.InSpace))))
    | None => None
    end.
Proof. reflexivity. Qed.

Lemma lex_body_tail (w : string) :
  json.lex "}}" (json.InWord w)
  = match json.wordToken w with
    | Some t => json.push t (Some [json.RBrace; json.RBrace])
    | None => None
    end.
Proof. reflexivity. Qed.

(** The JSON text of the body of an overview. *)
Lemma parse_overviewBody (r u : Z) :
  json.parse (overviewBody r u)
  = Some (json.Object
            [("queue_totals",
              json.Object [("messages_ready", json.Number (strconv.Itoa r));
                           ("messages_unacknowledged", json.Number (strconv.Itoa u))])]).
Proof.
  unfold json.parse, overviewBody.
  rewrite lex_body_head, lex_Itoa, lex_body_middle, wordToken_Itoa, lex_Itoa,
    lex_body_tail, wordToken_Itoa.
  reflexivity.
Qed.

Lemma Unmarshal_overviewBody (r u : Z) :
  int64 r -> int64 u ->
  Unmarshal (overviewBody r u) (Some zeroOverview)
  = (Some (mkOverview (mkQueueTotals u r)), None).
Proof.
  intros Hr Hu. unfold Unmarshal. rewrite parse_overviewBody.
  unfold decodeOverview, decodeOverviewMember. cbn [fold_left].
  change (json.foldsTo "queue_totals" "queue_totals") with true. cbn iota.
  unfold decodeQueueTotals. cbn [fold_left]. unfold decodeQueueTotalsMember.
  change (json.foldsTo "messages_ready" "messages_unacknowledged") with false.
  change (json.foldsTo "messages_ready" "messages_ready") with true.
  change (json.foldsTo "messages_unacknowledged" "messages_unacknowledged") with true.
  cbn iota. unfold json.decodeInt.
  rewrite (ParseInt_Itoa r Hr). cbn iota.
  rewrite (ParseInt_Itoa u Hu). reflexivity.
Qed.

(** ** The counters of a snapshot *)

Lemma decodeInt_int64 (v : json.value) (cur : Z) :
  int64 cur -> int64 (fst (json.decodeInt v cur)).
Proof.
  intros H. destruct v; simpl; auto.
  destruct (strconv.ParseInt lit) eqn:E; simpl; auto. eapply ParseInt_range, E.
Qed.

Lemma decodeQueueTotals_int64 (v : json.value) (cur : QueueTotals) :
  int64Totals cur -> int64Totals (fst (decodeQueueTotals v cur)).
Proof.
  destruct v; simpl; auto.
  generalize (@None json.error). revert cur.
  induction members as [|[k v] ms IH]; intros cur saved H; simpl; [exact H|].
  destruct H as [Hu Hr].
  destruct (json.foldsTo k "messages_unacknowledged").
  - pose proof (decodeInt_int64 v (MessagesUnack cur) Hu) as Hn.
    destruct (json.decodeInt v (MessagesUnack cur)) as [n e]. apply IH. split; auto.
  - destruct (json.foldsTo k "messages_ready"); [|apply IH; split; auto].
    pose proof (decodeInt_int64 v (MessagesReady cur) Hr) as Hn.
    destruct (json.decodeInt v (MessagesReady cur)) as [n e]. apply IH. split; auto.
Qed.

Lemma decodeOverview_int64 (v : json.value) (cur : Overview) :
  int64Totals (Totals cur) -> int64Totals (Totals (fst (decodeOverview v cur))).
Proof.
  destruct v; simpl; auto.
  generalize (@None json.error). revert cur.
  induction members as [|[k v] ms IH]; intros cur saved H; simpl; [exact H|].
  destruct (json.foldsTo k "queue_totals"); [|apply IH; exact H].
  pose proof (decodeQueueTotals_int64 v (Totals cur) H) as Hq.
  destruct (decodeQueueTotals v (Totals cur)) as [q e]. apply IH. exact Hq.
Qed.

Lemma zero_int64 : int64Totals (Totals zeroOverview).
Proof. split; unfold int64; simpl; change (2 ^ 63) with 9223372036854775808; lia. Qed.

(** What [Unmarshal] of a body into a fresh [Overview] can give: with no
    error, the nil pointer for [null] and a snapshot for an object. *)
Lemma Unmarshal_result (body : string) (over : option Overview) :
  Unmarshal body (Some zeroOverview) = (over, None) ->
  (over = None /\ json.parse body = Some json.Null)
  \/ (exists o members,
        over = Some o /\ json.parse body = Some (json.Object members)
        /\ int64Totals (Totals o)).
Proof.
  unfold Unmarshal. destruct (json.parse body) as [v|]; [|discriminate].
  pose proof (decodeOverview_int64 v zeroOverview zero_int64) as Hi.
  destruct v; try (simpl; discriminate).
  - intros H. injection H as <-. auto.
  - destruct (decodeOverview (json.Object members) zeroOverview) as [o e].
    intros H. injection H as <- ->. right. exists o, members. auto.
Qed.

Section RunProperties2.

Variable World : Type.
Variable roundTrip : request -> World -> exchange * World.
Variable badURI : string -> option string.

Local Abbreviation fetch := (processHost World roundTrip badURI).
Local Abbreviation loop := (hostLoop World roundTrip badURI).
Local Abbreviation run := (main World roundTrip badURI).
Local Abbreviation served := (served World roundTrip badURI).

(** What a fetch does, by how it ends. *)
Lemma processHost_cases (opt : options) (host : string) (w : World) :
  (exists text,
      badURI (overviewURI opt host) = Some text
      /\ fetch opt host w = ([], w, (None, Some (URLError text))))
  \/ (badURI (overviewURI opt host) = None
      /\ exists x w' over err,
          roundTrip (overviewRequest opt host) w = (x, w')
          /\ fetch opt host w = ([HTTP (overviewRequest opt host)], w', (over, err))
          /\ match x with
             | DoFailed text => over = None /\ err = Some (TransportError text)
             | ReadFailed text => over = None /\ err = Some (ReadError text)
             | Body body =>
                 match Unmarshal body (Some zeroOverview) with
                 | (_, Some e) => over = None /\ err = Some (JSONError e)
                 | (o, None) => over = o /\ err = None
                 end
             end).
Proof.
  unfold processHost, overviewRequest, overviewURI.
  destruct (badURI _) as [text|]; [left; eauto|]. right. split; [reflexivity|].
  destruct (roundTrip _ w) as [[text|text|body] w'].
  - do 4 eexists. repeat split.
  - do 4 eexists. repeat split.
  - destruct (Unmarshal body (Some zeroOverview)) as [o [e|]] eqn:E;
      do 4 eexists; (split; [reflexivity|]); (split; [reflexivity|]);
      rewrite E; split; reflexivity.
Qed.


(** X9: when a fetch returns a snapshot, no error comes with it, the body
    read from the network was a JSON object, and both counters are 64-bit
    integers. *)
Theorem processHost_snapshot (opt : options) (host : string) (w w' : World)
    (t : list event) (o : Overview) (err : option error) :
  fetch opt host w = (t, w', (Some o, err)) ->
  err = None
  /\ (exists body members,
        roundTrip (overviewRequest opt host) w = (Body body, w')
        /\ json.parse body = Some (json.Object members))
  /\ int64 (ready o) /\ int64 (unacknowledged o).
Proof.
  intros H.
  destruct (processHost_cases opt host w)
    as [(text & _ & E)|(_ & x & w1 & over1 & err1 & Ert & E & Hx)];
    rewrite E in H; [discriminate|]. injection H as _ -> -> ->.
  destruct x as [text|text|body]; try (destruct Hx as [Hx _]; discriminate).
  destruct (Unmarshal body (Some zeroOverview)) as [o' [e|]] eqn:EU;
    destruct Hx as [Ho ->]; [discriminate|]. subst o'.
  destruct (Unmarshal_result body (Some o) EU)
    as [[Hn _]|(o' & members & Ho & Hp & Hu & Hr)]; [discriminate|].
  injection Ho as <-. split; [reflexivity|]. split; [eauto|]. split; assumption.
Qed.

(** X8: when the network answers the request with the body of an overview
    whose counters are the decimal renderings of two 64-bit integers, the
    fetch returns the snapshot with exactly these counters and no error. *)
Theorem processHost_reads_overview (opt : options) (host : string) (w w' : World)
    (r u : Z) :
  badURI (overviewURI opt host) = None ->
  roundTrip (overviewRequest opt host) w = (Body (overviewBody r u), w') ->
  int64 r -> int64 u ->
  fetch opt host w
  = ([HTTP (overviewRequest opt host)], w', (Some (mkOverview (mkQueueTotals u r)), None)).
Proof.
  intros Hb Hrt Hr Hu.
  destruct (processHost_cases opt host w)
    as [(text & Hb' & _)|(_ & x & w1 & over1 & err1 & Ert & E & Hx)];
    [rewrite Hb in Hb'; discriminate|].
  rewrite Hrt in Ert. injection Ert as <- <-.
  rewrite (Unmarshal_overviewBody r u Hr Hu) in Hx. destruct Hx as [-> ->]. exact E.
Qed.

End RunProperties2.

(** ** Members that name no field, and values of the wrong type *)

Lemma decodeInt_fits (v : json.value) (cur : Z) :
  snd (json.decodeInt v cur) = None <-> fitsInt v = true.
Proof.
  destruct v; simpl; try (split; [discriminate|discriminate]); try tauto.
  destruct (strconv.ParseInt lit); simpl; split; auto; discriminate.
Qed.

(** Once an error is saved, it stays. *)
Lemma decodeQueueTotals_members_saved (members : list (string * json.value)) :
  forall cur e,
    snd (fold_left decodeQueueTotalsMember members (cur, Some e)) = Some e.
Proof.
  induction members as [|[k v] ms IH]; intros cur e; simpl; [reflexivity|].
  destruct (json.foldsTo k "messages_unacknowledged").
  - destruct (json.decodeInt v (MessagesUnack cur)) as [n e']. apply IH.
  - destruct (json.foldsTo k "messages_ready"); [|apply IH].
    destruct (json.decodeInt v (MessagesReady cur)) as [n e']. apply IH.
Qed.

Lemma decodeOverview_members_saved (members : list (string * json.value)) :
  forall cur e,
    snd (fold_left decodeOverviewMember members (cur, Some e)) = Some e.
Proof.
  induction members as [|[k v] ms IH]; intros cur e; simpl; [reflexivity|].
  destruct (json.foldsTo k "queue_totals"); [|apply IH].
  destruct (decodeQueueTotals v (Totals cur)) as [q e']. apply IH.
Qed.

Lemma decodeQueueTotals_fits (v : json.value) (cur : QueueTotals) :
  snd (decodeQueueTotals v cur) = None -> fitsTotals v = true.
Proof.
  destruct v; simpl; try discriminate; [reflexivity|].
  revert cur. induction members as [|[k v] ms IH]; intros cur; simpl; [reflexivity|].
  unfold namesCounter. cbn [fst snd].
  destruct (json.foldsTo k "messages_unacknowledged"); cbn [orb negb].
  - pose proof (decodeInt_fits v (MessagesUnack cur)) as Hf.
    destruct (json.decodeInt v (MessagesUnack cur)) as [n [e|]]; simpl in *.
    + rewrite decodeQueueTotals_members_saved. discriminate.
    + rewrite (proj1 Hf eq_refl). apply IH.
  - destruct (json.foldsTo k "messages_ready"); cbn [negb orb]; [|apply IH].
    pose proof (decodeInt_fits v (MessagesReady cur)) as Hf.
    destruct (json.decodeInt v (MessagesReady cur)) as [n [e|]]; simpl in *.
    + rewrite decodeQueueTotals_members_saved. discriminate.
    + rewrite (proj1 Hf eq_refl). apply IH.
Qed.

(** X15: a body that [Unmarshal] decodes without error is [null] or an
    object in which every member named [queue_totals] is [null] or an
    object whose members for the two counters are [null] or integer
    literals in the 64-bit range; a counter given as a string, a boolean, a
    fraction, an array or an object is a decoding error. *)
Theorem Unmarshal_accepts (body : string) (over : option Overview) :
  Unmarshal body (Some zeroOverview) = (over, None) ->
  json.parse body = Some json.Null
  \/ (exists members,
        json.parse body = Some (json.Object members)
        /\ forall key v, In (key, v) members ->
                         json.foldsTo key "queue_totals" = true -> fitsTotals v = true).
Proof.
  unfold Unmarshal. destruct (json.parse body) as [v|]; [|discriminate].
  destruct v; try (simpl; discriminate); [auto|].
  intros H. right. exists members. split; [reflexivity|].
  assert (snd (decodeOverview (json.Object members) zeroOverview) = None) as Hn.
  { destruct (decodeOverview (json.Object members) zeroOverview). injection H as _ ->.
    reflexivity. }
  clear H. simpl in Hn. revert Hn. generalize zeroOverview.
  induction members as [|[k v] ms IH]; intros cur Hn key v' Hin Hkey; [contradiction|].
  simpl in Hn. destruct Hin as [Heq|Hin].
  - injection Heq as -> ->. rewrite Hkey in Hn.
    pose proof (decodeQueueTotals_fits v' (Totals cur)) as Hf.
    destruct (decodeQueueTotals v' (Totals cur)) as [q [e|]]; simpl in *.
    + rewrite decodeOverview_members_saved in Hn. discriminate.
    + apply Hf. reflexivity.
  - destruct (json.foldsTo k "queue_totals").
    + destruct (decodeQueueTotals v (Totals cur)) as [q [e|]]; simpl in *.
      * rewrite decodeOverview_members_saved in Hn. discriminate.
      * eapply IH; eauto.
    + eapply IH; eauto.
Qed.

Lemma Unmarshal_accepts_witness :
  json.parse (quoted "{'queue_totals': {'messages_ready': null, 'node': 'rabbit@a'}}")
  = Some json.Null
  \/ (exists members,
        json.parse (quoted "{'queue_totals': {'messages_ready': null, 'node': 'rabbit@a'}}")
        = Some (json.Object members)
        /\ forall key v, In (key, v) members ->
                         json.foldsTo key "queue_totals" = true -> fitsTotals v = true).
Proof.
  apply (Unmarshal_accepts _ (Some zeroOverview)). reflexivity.
Defined.




(** ** Splitting and joining *)

Lemma Join_cons (e e' : string) (rest : list string) (sep : ascii) :
  Join (e :: e' :: rest) sep = e ++ String sep (Join (e' :: rest) sep).
Proof. reflexivity. Qed.

Lemma pieces_Join (s : string) (sep : ascii) :
  Join (fst (strings.pieces s sep) :: snd (strings.pieces s sep)) sep = s
  /\ strings.Count (fst (strings.pieces s sep)) sep = 0%nat
  /\ Forall (fun p => strings.Count p sep = 0%nat) (snd (strings.pieces s sep)).
Proof.
  induction s as [|c s IH]; [simpl; auto|].
  cbn [strings.pieces]. destruct (strings.pieces s sep) as [p ps].
  cbn [fst snd] in IH. destruct IH as (Hj & Hp & Hps).
  destruct (Ascii.eqb c sep) eqn:E; cbn [fst snd].
  - apply Ascii.eqb_eq in E. subst c. split; [|split; [reflexivity|constructor; auto]].
    rewrite Join_cons, Hj. reflexivity.
  - split; [|split; [simpl; rewrite E; exact Hp | exact Hps]].
    destruct ps as [|q ps]; [simpl in *; rewrite Hj; reflexivity|].
    rewrite Join_cons in *. rewrite <- Hj. reflexivity.
Qed.

(** X13: splitting on commas loses nothing and joining restores it: the
    pieces of a string are never none, hold no comma and join back to the
    string; and a non-empty list of pieces without commas is what its join
    splits into. *)
Theorem Split_Join :
  (forall s, Join (strings.Split s ",") "," = s
             /\ strings.Split s "," <> []
             /\ Forall commaFree (strings.Split s ","))
  /\ (forall elems, elems <> [] -> Forall commaFree elems ->
                    strings.Split (Join elems ",") "," = elems).
Proof.
  split.
  - intros s. pose proof (pieces_Join s ",") as H. unfold strings.Split.
    destruct (strings.pieces s ",") as [p ps]. cbn [fst snd] in H.
    destruct H as (Hj & Hp & Hps). split; [exact Hj|]. split; [discriminate|].
    constructor; assumption.
  - induction elems as [|e rest IH]; intros Hne Hall; [contradiction|].
    inversion Hall as [|? ? He Hrest]; subst.
    destruct rest as [|e' rest].
    + cbn [Join]. unfold strings.Split. rewrite (pieces_no_sep e "," He). reflexivity.
    + rewrite Join_cons. unfold strings.Split at 1.
      rewrite (pieces_app e (Join (e' :: rest) ",") "," He).
      rewrite IH; [reflexivity | discriminate | exact Hrest].
Qed.

Lemma Split_Join_witness :
  strings.Split (Join ["rabbit1"; ""; "rabbit3"] ",") "," = ["rabbit1"; ""; "rabbit3"].
Proof.
  apply (proj2 Split_Join); [discriminate|]. repeat constructor.
Defined.

(** ** The run controller, continued *)

Section RunProperties3.

Variable World : Type.
Variable roundTrip : request -> World -> exchange * World.
Variable badURI : string -> option string.

Local Abbreviation fetch := (processHost World roundTrip badURI).
Local Abbreviation loop := (hostLoop World roundTrip badURI).
Local Abbreviation run := (main World roundTrip badURI).
Local Abbreviation served := (served World roundTrip badURI).

(** X4: when a limit string is refused, [main] writes only to the log and
    returns: the error once when the string has the wrong number of pieces,
    and twice when a piece is not an integer, once by the limit parser and
    once by [main].  The critical string is parsed only after the warning
    string was accepted. *)
Theorem main_logs_limit_error (opt : options) (w : World) :
  (forall e, snd (snd (limitMap (Warning opt))) = Some e ->
             run (inl opt) w
             = ((if isNumError e then [Log e; Log e] else [Log e]), w, Returned tt))
  /\ (forall e, snd (snd (limitMap (Warning opt))) = None ->
                snd (snd (limitMap (Critical opt))) = Some e ->
                run (inl opt) w
                = ((if isNumError e then [Log e; Log e] else [Log e]), w, Returned tt)).
Proof.
  unfold main.
  pose proof (limitMap_writes (Warning opt)) as Ew.
  pose proof (limitMap_writes (Critical opt)) as Ec.
  destruct (limitMap (Warning opt)) as [tw [lw [ew|]]]; simpl.
  - split; [|discriminate]. intros e H. injection H as <-.
    destruct ew; subst tw; reflexivity.
  - split; [discriminate|]. intros e _ H. subst tw.
    destruct (limitMap (Critical opt)) as [tc [lc [ec|]]]; simpl in H; [|discriminate].
    injection H as <-. destruct ec; subst tc; reflexivity.
Qed.






Lemma hostLoop_nil_snapshot (opt : options) (lw lc : list Z) (pre : list string) :
  forall w t_pre w1 host post t_h w2,
    served opt lw lc pre w t_pre w1 ->
    fetch opt host w1 = (t_h, w2, (None, None)) ->
    loop opt lw lc (pre ++ host :: post)%list w
    = ((t_pre ++ t_h)%list, w2, Panicked NilDereference).
Proof.
  induction pre as [|p pre IH]; intros w t_pre w1 host post t_h w2 Hs Hf.
  - inversion Hs; subst. simpl. rewrite Hf. simpl. rewrite app_nil_r. reflexivity.
  - inversion Hs; subst. simpl.
    match goal with H : fetch opt p w = _ |- _ => rewrite H end.
    match goal with H : processOverview _ lw lc = _ |- _ => rewrite H end.
    erewrite IH by eauto.
    rewrite <- !app_assoc. reflexivity.
Qed.

(** X12: when the hosts before [host] are served and the network answers
    the request for [host] with a body that is the JSON value [null], the
    run is the events of the hosts before it and that request, and then
    [main] panics on the nil snapshot: nothing is logged or written for
    [host], and no host after it is fetched. *)
Theorem null_body_stops_the_run (opt : options) (w : World)
    (tw tc : list event) (lw lc : list Z) (pre post : list string) (host : string)
    (t_pre : list event) (w1 w2 : World) (body : string) :
  limitMap (Warning opt) = (tw, (lw, None)) ->
  limitMap (Critical opt) = (tc, (lc, None)) ->
  strings.Split (Host opt) "," = (pre ++ host :: post)%list ->
  served opt lw lc pre w t_pre w1 ->
  badURI (overviewURI opt host) = None ->
  roundTrip (overviewRequest opt host) w1 = (Body body, w2) ->
  json.parse body = Some json.Null ->
  run (inl opt) w
  = ((t_pre ++ [HTTP (overviewRequest opt host)])%list, w2, Panicked NilDereference).
Proof.
  intros Hw Hc Hhosts Hs Hb Hrt Hnull.
  pose proof (limitMap_writes (Warning opt)) as Ew. rewrite Hw in Ew. subst tw.
  pose proof (limitMap_writes (Critical opt)) as Ec. rewrite Hc in Ec. subst tc.
  assert (fetch opt host w1 = ([HTTP (overviewRequest opt host)], w2, (None, None))) as Hf.
  { destruct (processHost_cases World roundTrip badURI opt host w1)
      as [(text & Hb' & _)|(_ & x & w1' & over & err & Ert & E & Hx)];
      [rewrite Hb in Hb'; discriminate|].
    rewrite Hrt in Ert. injection Ert as <- <-.
    unfold Unmarshal in Hx. rewrite Hnull in Hx. destruct Hx as [-> ->]. exact E. }
  unfold main. rewrite Hw, Hc, Hhosts.
  rewrite (hostLoop_nil_snapshot opt lw lc pre w t_pre w1 host post _ w2 Hs Hf).
  reflexivity.
Qed.

End RunProperties3.

(** *** Further runs on a scripted network *)

Lemma main_logs_limit_error_witness :
  main (list exchange) scriptedRoundTrip anyURI (inl oneLimit) [Body "{}"]
  = ([Log malformed], [Body "{}"], Returned tt)
  /\ main (list exchange) scriptedRoundTrip anyURI (inl notANumber) [Body "{}"]
     = ([Log (NumError (strconv.syntaxError "Atoi" "many"));
         Log (NumError (strconv.syntaxError "Atoi" "many"))], [Body "{}"], Returned tt).
Proof.
  split.
  - apply (proj1 (main_logs_limit_error (list exchange) scriptedRoundTrip anyURI
                    oneLimit [Body "{}"]) malformed).
    reflexivity.
  - apply (proj2 (main_logs_limit_error (list exchange) scriptedRoundTrip anyURI
                    notANumber [Body "{}"])
             (NumError (strconv.syntaxError "Atoi" "many"))); reflexivity.
Defined.


Lemma processHost_snapshot_witness :
  @None error = None
  /\ (exists body members,
        scriptedRoundTrip (overviewRequest defaults "localhost")
          [Body (quoted "{'queue_totals': {'messages_ready': 7}}")] = (Body body, [])
        /\ json.parse body = Some (json.Object members))
  /\ int64 (ready (mkOverview (mkQueueTotals 0 7)))
  /\ int64 (unacknowledged (mkOverview (mkQueueTotals 0 7))).
Proof.
  apply (processHost_snapshot (list exchange) scriptedRoundTrip anyURI defaults "localhost"
           [Body (quoted "{'queue_totals': {'messages_ready': 7}}")] []
           [HTTP (overviewRequest defaults "localhost")]).
  reflexivity.
Defined.

Lemma processHost_reads_overview_witness :
  processHost (list exchange) scriptedRoundTrip anyURI defaults "localhost"
    [Body (overviewBody 60000 (-1))]
  = ([HTTP (overviewRequest defaults "localhost")], [],
     (Some (mkOverview (mkQueueTotals (-1) 60000)), None)).
Proof.
  apply (processHost_reads_overview (list exchange) scriptedRoundTrip anyURI defaults
           "localhost" [Body (overviewBody 60000 (-1))] [] 60000 (-1));
    try reflexivity; unfold int64; change (2 ^ 63) with 9223372036854775808; lia.
Defined.



Lemma null_body_stops_the_run_witness :
  main (list exchange) scriptedRoundTrip anyURI (inl threeHosts)
    [Body "{}"; Body " null "; Body "{}"]
  = (([HTTP (requestTo "a")]
      ++ [report OK 0 "messages ready"; report OK 0 "messages unacknowledged"] ++ [])
     ++ [HTTP (overviewRequest threeHosts "b")], [Body "{}"],
     Panicked NilDereference)%list.
Proof.
  apply (null_body_stops_the_run (list exchange) scriptedRoundTrip anyURI threeHosts
           [Body "{}"; Body " null "; Body "{}"] [] [] [10000; 10000] [50000; 50000]
           ["a"] ["c"] "b" _ [Body " null "; Body "{}"] [Body "{}"] " null ");
    try reflexivity.
  apply (served_cons (list exchange) scriptedRoundTrip anyURI threeHosts
           [10000; 10000] [50000; 50000] "a" []
           [Body "{}"; Body " null "; Body "{}"] [HTTP (requestTo "a")]
           [Body " null "; Body "{}"] (Some zeroOverview)
           [report OK 0 "messages ready"; report OK 0 "messages unacknowledged"] []
           [Body " null "; Body "{}"]); try reflexivity.
  apply served_nil.
Defined.
